(** * A cooperative round-robin task scheduler (scheduler.c)

    Shallow embedding of the scheduler of [scheduler.c]: the task table,
    the readiness predicate, the round-robin scan, and the lifecycle
    operations.  The three external collaborators are modelled as follows.

    - [time_ms()] and [getch()] are answered by two oracles carried in the
      machine state, together with the number of calls made so far;
    - the [ucontext] primitives and the allocator are opaque: every call the
      scheduler makes on them is appended to a log, in program order;
    - an access to [tasks[i]] with [i] outside [0 .. MAX_TASKS-1] has no
      defined behaviour in C; the embedding stops there and reports the
      index together with the globals at that program point. *)

From Stdlib Require Import ZArith List Bool Lia.
From stdpp Require Import base tactics option list.

Local Open Scope Z_scope.

(** ** Constants *)

(** [#define MAX_TASKS 128] *)
Definition MAX_TASKS : Z := 128.

(** [#define STACK_SIZE 65536] *)
Definition STACK_SIZE : Z := 65536.

(** [ERR] of <curses.h>: the value [getch()] returns when no input is
    available. *)
Definition ERR : Z := -1.

(** Width of [size_t] (LP64). *)
Definition SIZE_BITS : Z := 64.

(** Unsigned arithmetic on [size_t] is modulo [2 ^ SIZE_BITS]. *)
Definition to_size_t (z : Z) : Z := z mod 2 ^ SIZE_BITS.

(** ** Data *)

(** [task_info_t], without the two opaque [ucontext_t] fields. *)
Record task_info : Type := mk_task {
  is_alive : Z;        (* int is_alive *)
  wake_time : Z;       (* size_t wake_time *)
  waiting_for : Z      (* int waiting_for *)
}.

(** A statically allocated record is all zeroes. *)
Definition zero_task : task_info := mk_task 0 0 0.

Definition set_is_alive (v : Z) (t : task_info) : task_info :=
  mk_task v (wake_time t) (waiting_for t).
Definition set_wake_time (v : Z) (t : task_info) : task_info :=
  mk_task (is_alive t) v (waiting_for t).
Definition set_waiting_for (v : Z) (t : task_info) : task_info :=
  mk_task (is_alive t) (wake_time t) v.

(** The two contexts of a slot: [tasks[i].context] and
    [tasks[i].exit_context]. *)
Inductive ctx_ref : Type :=
| context (slot : Z)
| exit_context (slot : Z).

(** What a context is bootstrapped to run: [task_exit], or the task function
    (an opaque function pointer, here a number). *)
Inductive entry : Type :=
| entry_task_exit
| entry_fn (fn : nat).

(** Calls on the context primitive and on the allocator. *)
Inductive call : Type :=
| getcontext (c : ctx_ref)
| malloc_stack (c : ctx_ref) (size : Z)
| set_uc_link (c link : ctx_ref)
| makecontext (c : ctx_ref) (e : entry)
| swapcontext (save resume : ctx_ref)
| free_stack (c : ctx_ref).

(** The globals of [scheduler.c] and the environment they run in.  The
    [int] globals stay between [-1] and [MAX_TASKS + 1] in every run
    considered, far from the limits of the type; they are plain integers. *)
Record sched : Type := mk_sched {
  tasks : list task_info;     (* task_info_t tasks[MAX_TASKS] *)
  current_task : Z;           (* int current_task *)
  num_tasks : Z;              (* int num_tasks *)
  num_alive : Z;              (* int num_alive *)
  clock : nat -> Z;           (* k-th answer of time_ms() *)
  time_calls : nat;           (* calls to time_ms() so far *)
  keys : nat -> Z;            (* k-th answer of getch() *)
  getch_calls : nat;          (* calls to getch() so far *)
  calls : list call           (* context and allocator calls so far *)
}.

Definition with_tasks (v : list task_info) (s : sched) : sched :=
  mk_sched v (current_task s) (num_tasks s) (num_alive s)
           (clock s) (time_calls s) (keys s) (getch_calls s) (calls s).
Definition with_current_task (v : Z) (s : sched) : sched :=
  mk_sched (tasks s) v (num_tasks s) (num_alive s)
           (clock s) (time_calls s) (keys s) (getch_calls s) (calls s).
Definition with_num_tasks (v : Z) (s : sched) : sched :=
  mk_sched (tasks s) (current_task s) v (num_alive s)
           (clock s) (time_calls s) (keys s) (getch_calls s) (calls s).
Definition with_num_alive (v : Z) (s : sched) : sched :=
  mk_sched (tasks s) (current_task s) (num_tasks s) v
           (clock s) (time_calls s) (keys s) (getch_calls s) (calls s).
Definition with_time_calls (v : nat) (s : sched) : sched :=
  mk_sched (tasks s) (current_task s) (num_tasks s) (num_alive s)
           (clock s) v (keys s) (getch_calls s) (calls s).
Definition with_getch_calls (v : nat) (s : sched) : sched :=
  mk_sched (tasks s) (current_task s) (num_tasks s) (num_alive s)
           (clock s) (time_calls s) (keys s) v (calls s).
Definition with_calls (v : list call) (s : sched) : sched :=
  mk_sched (tasks s) (current_task s) (num_tasks s) (num_alive s)
           (clock s) (time_calls s) (keys s) (getch_calls s) v.

(** The image of the globals at program start: [current_task = 0],
    [num_tasks = 1], everything without an initialiser zeroed. *)
Definition boot (clk inp : nat -> Z) : sched :=
  mk_sched (replicate (Z.to_nat MAX_TASKS) zero_task) 0 1 0 clk 0%nat inp 0%nat [].

(** ** Outcomes and the state monad *)

Inductive result (A : Type) : Type :=
| Ok (a : A) (s : sched)          (* the call returned [a], leaving [s] *)
| OutOfBounds (i : Z) (s : sched) (* [tasks[i]] accessed outside the table *)
| OutOfFuel.                      (* the scan did not finish within the fuel *)
Arguments Ok {A} a s.
Arguments OutOfBounds {A} i s.
Arguments OutOfFuel {A}.

Definition M (A : Type) : Type := sched -> result A.

Definition ret {A} (a : A) : M A := fun s => Ok a s.

Definition bind {A B} (m : M A) (k : A -> M B) : M B :=
  fun s =>
    match m s with
    | Ok a s' => k a s'
    | OutOfBounds i s' => OutOfBounds i s'
    | OutOfFuel => OutOfFuel
    end.

Notation "'do' x <- m ; k" := (bind m (fun x => k))
  (at level 10, x name, m at level 100, k at level 200).
Notation "m ;; k" := (bind m (fun _ => k))
  (at level 100, k at level 200, right associativity).

Definition gets {A} (f : sched -> A) : M A := fun s => Ok (f s) s.
Definition modify (f : sched -> sched) : M unit := fun s => Ok tt (f s).

(** ** Primitive accesses *)

Definition in_table (i : Z) : bool := (0 <=? i) && (i <? MAX_TASKS).

(** The record at [tasks[i]], if [i] is inside the table. *)
Definition task_at (i : Z) (s : sched) : option task_info :=
  if in_table i then tasks s !! Z.to_nat i else None.

(** Read of [tasks[i]]. *)
Definition load (i : Z) : M task_info :=
  fun s =>
    match task_at i s with
    | Some t => Ok t s
    | None => OutOfBounds i s
    end.

(** The table with [tasks[i]] replaced by [u]. *)
Definition put_task (i : Z) (u : task_info) (s : sched) : sched :=
  with_tasks (<[Z.to_nat i := u]> (tasks s)) s.

(** Write of one field of [tasks[i]]. *)
Definition store (i : Z) (f : task_info -> task_info) : M unit :=
  fun s =>
    match task_at i s with
    | Some t => Ok tt (put_task i (f t) s)
    | None => OutOfBounds i s
    end.

(** The answer of the [k]-th call to [time_ms()], as a [size_t]. *)
Definition now_at (s : sched) (k : nat) : Z := to_size_t (clock s k).

Definition time_ms : M Z :=
  fun s => Ok (now_at s (time_calls s)) (with_time_calls (S (time_calls s)) s).

Definition getch : M Z :=
  fun s => Ok (keys s (getch_calls s)) (with_getch_calls (S (getch_calls s)) s).

Definition emit (c : call) : M unit :=
  modify (fun s => with_calls (calls s ++ [c]) s).

(** ** The scheduler *)

(** [is_ready]: the record is passed by value; the table and the clock are
    read.  [&&] and [||] evaluate left to right and stop early, so the
    waited-on slot is read only for a live task that waits, and the clock only
    when the first two conjuncts hold. *)
Definition is_ready (task : task_info) : M bool :=
  if is_alive task =? 0 then ret false
  else
    do unblocked <-
      (if waiting_for task =? -1 then ret true
       else do other <- load (waiting_for task); ret (is_alive other =? 0));
    if (unblocked : bool) then
      do now <- time_ms; ret (wake_time task <=? now)
    else ret false.

(** The [if] branch of the loop of [schedule_next]. *)
Definition switch_to (i : Z) : M unit :=
  do old_task <- gets current_task;
  modify (with_current_task i);;
  do cur <- gets current_task;
  store cur (set_waiting_for (-1));;
  emit (swapcontext (context old_task) (context cur)).

(** The [while (true)] loop of [schedule_next], entered with index [i]. *)
Fixpoint scan (fuel : nat) (i : Z) : M unit :=
  match fuel with
  | O => fun _ => OutOfFuel
  | S fuel =>
      do task <- load i;
      do ready <- is_ready task;
      if (ready : bool) then switch_to i
      else
        do n <- gets num_tasks;
        let i := i + 1 in
        scan fuel (if i >=? n then 0 else i)
  end.

Definition schedule_next (fuel : nat) : M unit :=
  do c <- gets current_task;
  scan fuel (c + 1).

Definition scheduler_init : M unit :=
  modify (with_current_task 0);;
  modify (with_num_tasks 1);;
  modify (with_num_alive 1);;
  store 0 (set_is_alive 1);;
  store 0 (set_waiting_for (-1));;
  emit (getcontext (context 0)).

Definition task_exit (fuel : nat) : M unit :=
  modify (fun s => with_num_alive (num_alive s - 1) s);;
  do c <- gets current_task;
  store c (set_is_alive 0);;
  emit (free_stack (context c));;
  emit (free_stack (exit_context c));;
  schedule_next fuel.

(** [task_create]: the value written to [*handle] is the result. *)
Definition task_create (fn : nat) : M Z :=
  do index <- gets num_tasks;
  modify (fun s => with_num_tasks (num_tasks s + 1) s);;
  modify (fun s => with_num_alive (num_alive s + 1) s);;
  store index (set_is_alive 1);;
  store index (set_waiting_for (-1));;
  emit (getcontext (exit_context index));;
  emit (malloc_stack (exit_context index) STACK_SIZE);;
  emit (makecontext (exit_context index) entry_task_exit);;
  emit (getcontext (context index));;
  emit (malloc_stack (context index) STACK_SIZE);;
  emit (set_uc_link (context index) (exit_context index));;
  emit (makecontext (context index) (entry_fn fn));;
  ret index.

Definition task_wait (fuel : nat) (handle : Z) : M unit :=
  do c <- gets current_task;
  store c (set_waiting_for handle);;
  schedule_next fuel.

Definition task_sleep (fuel : nat) (ms : Z) : M unit :=
  do now <- time_ms;
  do c <- gets current_task;
  store c (set_wake_time (to_size_t (now + ms)));;
  schedule_next fuel.

(** One turn of the loop of [task_readchar]: [Some input] when the function
    returns [input], [None] when it has called [schedule_next] and will poll
    again once it is switched back to. *)
Definition readchar_poll (fuel : nat) : M (option Z) :=
  do input <- getch;
  if input =? ERR then schedule_next fuel;; ret None
  else ret (Some input).

(** [swapcontext] returns in the task [me] when some later [schedule_next]
    selects it again; [back] gives the globals as the task finds them then.
    When the scan selected [me] itself the call returns at once. *)
Definition resumed (me : Z) (back : sched -> sched) : M unit :=
  fun s => Ok tt (if current_task s =? me then s else back s).

(** [task_readchar], with a bound on the number of polls. *)
Fixpoint task_readchar (back : sched -> sched) (polls fuel : nat) : M Z :=
  match polls with
  | O => fun _ => OutOfFuel
  | S polls =>
      do me <- gets current_task;
      do r <- readchar_poll fuel;
      match r with
      | Some input => ret input
      | None => resumed me back;; task_readchar back polls fuel
      end
  end.

(** ** The scheduler loop as the specification words it

    "Starting from [(current_task_index + 1) mod num_tasks], scan task slots
    in increasing circular order until one satisfies the Readiness Evaluator.
    On finding slot [i]: clear [i]'s [waiting_for]; update
    [current_task_index = i]; save the previous current task's context and
    resume task [i]'s context." *)

Definition select_spec (i : Z) : M unit :=
  store i (set_waiting_for (-1));;
  do previous <- gets current_task;
  modify (with_current_task i);;
  emit (swapcontext (context previous) (context i)).

Fixpoint scan_spec (fuel : nat) (i : Z) : M unit :=
  match fuel with
  | O => fun _ => OutOfFuel
  | S fuel =>
      do task <- load i;
      do ready <- is_ready task;
      if (ready : bool) then select_spec i
      else
        do n <- gets num_tasks;
        scan_spec fuel ((i + 1) mod n)
  end.

Definition schedule_next_spec (fuel : nat) : M unit :=
  do c <- gets current_task;
  do n <- gets num_tasks;
  scan_spec fuel ((c + 1) mod n).

(** ** Runs of the system

    Whatever the task functions do, the scheduler only sees the calls the
    running task makes.  [Poll] is one turn of the loop of [task_readchar];
    [Exit] is [task_exit], entered through the [uc_link] of a task whose
    function returned; [Yield] is a bare [schedule_next]. *)

Inductive op : Type :=
| Create (fn : nat)
| Wait (fuel : nat) (handle : Z)
| Sleep (fuel : nat) (ms : Z)
| Poll (fuel : nat)
| Exit (fuel : nat)
| Yield (fuel : nat).

Definition step (o : op) : M unit :=
  match o with
  | Create fn => task_create fn;; ret tt
  | Wait fuel handle => task_wait fuel handle
  | Sleep fuel ms => task_sleep fuel ms
  | Poll fuel => readchar_poll fuel;; ret tt
  | Exit fuel => task_exit fuel
  | Yield fuel => schedule_next fuel
  end.

Fixpoint run (ops : list op) : M unit :=
  match ops with
  | [] => ret tt
  | o :: ops => step o;; run ops
  end.

(** The calls made while task [c] is switched out: the run stops as soon as
    [c] is the current task. *)
Fixpoint run_away (c : Z) (ops : list op) : M unit :=
  match ops with
  | [] => ret tt
  | o :: ops =>
      do cur <- gets current_task;
      if cur =? c then ret tt else step o;; run_away c ops
  end.

(** States reached from program start by [scheduler_init] followed by calls
    that return. *)
Inductive reachable (clk inp : nat -> Z) : sched -> Prop :=
| reachable_init s :
    scheduler_init (boot clk inp) = Ok tt s -> reachable clk inp s
| reachable_step o s s' :
    reachable clk inp s -> step o s = Ok tt s' -> reachable clk inp s'.

(** The globals at the point where a call ended, normally or not. *)
Definition globals_at_end {A} (r : result A) : option sched :=
  match r with
  | Ok _ s => Some s
  | OutOfBounds _ s => Some s
  | OutOfFuel => None
  end.

(** ** Invariants *)

(** [0 <= current_task < num_tasks <= MAX_TASKS]. *)
Definition index_inv (s : sched) : Prop :=
  0 <= current_task s /\ current_task s < num_tasks s /\ num_tasks s <= MAX_TASKS.

(** Slots that were never claimed still hold their static zeroes. *)
Definition unborn_zero (s : sched) : Prop :=
  forall i, num_tasks s <= i < MAX_TASKS -> task_at i s = Some zero_task.

(** The running task is alive, waits for nobody, and its wake-up time is zero
    or was reached by a clock reading already taken. *)
Definition current_runnable (s : sched) : Prop :=
  exists t, task_at (current_task s) s = Some t /\
            is_alive t <> 0 /\ waiting_for t = -1 /\
            (wake_time t = 0 \/
             exists k, (k < time_calls s)%nat /\ wake_time t <= now_at s k).

Record sched_inv (s : sched) : Prop := mk_sched_inv {
  inv_table : length (tasks s) = Z.to_nat MAX_TASKS;
  inv_index : index_inv s;
  inv_unborn : unborn_zero s;
  inv_runnable : current_runnable s
}.

(** The clock never runs backwards. *)
Definition monotone_clock (s : sched) : Prop :=
  forall j k, (j <= k)%nat -> now_at s j <= now_at s k.

(** [s'] differs from [s] at most in the number of clock readings taken. *)
Definition same_globals (s s' : sched) : Prop :=
  exists n, (time_calls s <= n)%nat /\ s' = with_time_calls n s.

(** No context switch among the calls [l]. *)
Definition no_switch (l : list call) : Prop :=
  forall save resume, ~ In (swapcontext save resume) l.

(** The state after one more clock reading. *)
Definition tick (s : sched) : sched := with_time_calls (S (time_calls s)) s.

(** The record waits for nobody, or for a slot of the table that is dead. *)
Definition wait_over (t : task_info) (s : sched) : Prop :=
  waiting_for t = -1 \/
  exists other, task_at (waiting_for t) s = Some other /\ is_alive other = 0.

(** The three conditions of readiness, against the next clock reading. *)
Definition ready_now (t : task_info) (s : sched) : Prop :=
  is_alive t <> 0 /\ wait_over t s /\ wake_time t <= now_at s (time_calls s).

(** The globals after the scan has picked slot [j], whose record was [t]. *)
Definition selected (j : Z) (t : task_info) (s : sched) : sched :=
  mk_sched (<[Z.to_nat j := set_waiting_for (-1) t]> (tasks s)) j
           (num_tasks s) (num_alive s)
           (clock s) (time_calls s) (keys s) (getch_calls s)
           (calls s ++ [swapcontext (context (current_task s)) (context j)]).

(** The part of the invariant that does not mention the running task. *)
Definition table_inv (s : sched) : Prop :=
  length (tasks s) = Z.to_nat MAX_TASKS /\
  num_tasks s <= MAX_TASKS /\
  unborn_zero s.

(** ** Concrete runs *)

(** The globals [scheduler_init] leaves when called at program start. *)
Definition started (clk inp : nat -> Z) : sched :=
  mk_sched (<[0%nat := mk_task 1 0 (-1)]>
              (replicate (Z.to_nat MAX_TASKS) zero_task))
           0 1 1 clk 0%nat inp 0%nat [getcontext (context 0)].

(** A clock stuck at 1000 ms and a keyboard nobody touches. *)
Definition clk0 : nat -> Z := fun _ => 1000.
Definition keys0 : nat -> Z := fun _ => ERR.

(** The globals after the host has made the calls [ops]. *)
Definition state_after (ops : list op) : sched :=
  match run ops (started clk0 keys0) with
  | Ok _ s => s
  | OutOfBounds _ s => s
  | OutOfFuel => started clk0 keys0
  end.

(** The host fills the table: 127 calls to [task_create]. *)
Definition fill_table : list op := replicate 127 (Create 0).

(** Then every task yields once, which leaves the task of the last slot
    running. *)
Definition reach_last_slot : list op := fill_table ++ replicate 127 (Yield 1).

(** One call to [task_create] too many. *)
Definition overfill_table : list op := replicate 128 (Create 0).

(** The host creates a task and waits on a handle past the table. *)
Definition wait_past_table : list op := [Create 0; Wait 1 MAX_TASKS].

(** While task [c] is switched out its record is [t] ... *)
Definition still_away (c : Z) (t : task_info) (s' : sched) : Prop :=
  current_task s' <> c /\ task_at c s' = Some t.

(** ... until a scan picks it, on a clock reading taken since [s]. *)
Definition back_at (c : Z) (t : task_info) (s s' : sched) : Prop :=
  current_task s' = c /\
  task_at c s' = Some (set_waiting_for (-1) t) /\
  is_alive t <> 0 /\
  exists k, (time_calls s <= k < time_calls s')%nat /\ wake_time t <= now_at s k.

(** Number of probes the loop of [schedule_next] makes from index [i] before
    it probes slot [c], when [n] slots are claimed. *)
Definition probes_before (n c i : Z) : Z :=
  if i <=? c then c - i else Z.max (n - i) 1 + c.

(** The globals in which [task_readchar] makes its poll number [k] (counted
    from 0), when the polls before it found no data and each scan returned:
    after a poll without data the task goes through [schedule_next] and,
    unless it was picked itself, through whatever [back] stands for. *)
Fixpoint poll_state (back : sched -> sched) (k fuel : nat) (s : sched)
  : option sched :=
  match k with
  | O => Some s
  | S k =>
      if keys s (getch_calls s) =? ERR then
        match schedule_next fuel (with_getch_calls (S (getch_calls s)) s) with
        | Ok _ s1 =>
            poll_state back k fuel
              (if current_task s1 =? current_task s then s1 else back s1)
        | _ => None
        end
      else None
  end.

(** A clock that advances 10 ms per reading, and a keyboard on which a key
    (code 97) is down from the third poll on. *)
Definition clk_ticks : nat -> Z := fun k => 1000 + 10 * Z.of_nat k.
Definition keys_late : nat -> Z := fun k => if (k <? 2)%nat then ERR else 97.

(** ** Notions for whole runs *)

(** [waiting_for] is [-1] or an index of the table. *)
Definition valid_wait (t : task_info) : Prop :=
  waiting_for t = -1 \/ 0 <= waiting_for t < MAX_TASKS.

Definition valid_handles (s : sched) : Prop :=
  forall i t, task_at i s = Some t -> valid_wait t.

(** A call whose handle argument, if it has one, is [-1] or an index of the
    table. *)
Definition safe_op (o : op) : Prop :=
  match o with
  | Wait _ handle => -1 <= handle < MAX_TASKS
  | _ => True
  end.

(** Number of calls to [task_create] among [ops]. *)
Fixpoint creations (ops : list op) : Z :=
  match ops with
  | [] => 0
  | Create _ :: ops => 1 + creations ops
  | _ :: ops => creations ops
  end.

(** Number of live records in a table. *)
Fixpoint alive_count (l : list task_info) : Z :=
  match l with
  | [] => 0
  | t :: l => (if is_alive t =? 0 then 0 else 1) + alive_count l
  end.

Definition ctx_eqb (a b : ctx_ref) : bool :=
  match a, b with
  | context i, context j => i =? j
  | exit_context i, exit_context j => i =? j
  | _, _ => false
  end.

(** How often the stack of context [c] was freed, and how often allocated,
    among the calls [l]. *)
Fixpoint frees (c : ctx_ref) (l : list call) : Z :=
  match l with
  | [] => 0
  | free_stack c' :: l => (if ctx_eqb c c' then 1 else 0) + frees c l
  | _ :: l => frees c l
  end.

Fixpoint mallocs (c : ctx_ref) (l : list call) : Z :=
  match l with
  | [] => 0
  | malloc_stack c' _ :: l => (if ctx_eqb c c' then 1 else 0) + mallocs c l
  | _ :: l => mallocs c l
  end.

(** Every claimed slot is alive, waits for nobody, and its wake-up time lies
    behind every clock reading still to come. *)
Definition all_runnable (s : sched) : Prop :=
  forall i, 0 <= i < num_tasks s ->
  exists t, task_at i s = Some t /\
            is_alive t <> 0 /\ waiting_for t = -1 /\
            forall k, (time_calls s <= k)%nat -> wake_time t <= now_at s k.

(** No record of the table is alive. *)
Definition all_dead (s : sched) : Prop :=
  forall i t, task_at i s = Some t -> is_alive t = 0.

(** The stacks of slot [i] were allocated once each if the slot was claimed
    by [task_create] and never otherwise, and freed once each if the slot is
    claimed and dead and never otherwise. *)
Definition stacks_accounted (s : sched) : Prop :=
  forall i t, task_at i s = Some t ->
    mallocs (context i) (calls s)
    = (if (1 <=? i) && (i <? num_tasks s) then 1 else 0) /\
    mallocs (exit_context i) (calls s) = mallocs (context i) (calls s) /\
    frees (context i) (calls s)
    = (if (is_alive t =? 0) && (i <? num_tasks s) then 1 else 0) /\
    frees (exit_context i) (calls s) = frees (context i) (calls s).

(** The globals at the point where a call enters the loop of
    [schedule_next], for the calls that get there. *)
Definition before_scan (o : op) (s : sched) : option sched :=
  let c := current_task s in
  match o with
  | Create _ => None
  | Wait _ handle =>
      match task_at c s with
      | Some t => Some (put_task c (set_waiting_for handle t) s)
      | None => None
      end
  | Sleep _ ms =>
      match task_at c s with
      | Some t =>
          Some (put_task c
                  (set_wake_time (to_size_t (now_at s (time_calls s) + ms)) t)
                  (tick s))
      | None => None
      end
  | Poll _ =>
      if keys s (getch_calls s) =? ERR
      then Some (with_getch_calls (S (getch_calls s)) s)
      else None
  | Exit _ =>
      match task_at c s with
      | Some t =>
          Some (with_calls (calls s ++ [free_stack (context c);
                                        free_stack (exit_context c)])
                  (put_task c (set_is_alive 0 t)
                     (with_num_alive (num_alive s - 1) s)))
      | None => None
      end
  | Yield _ => Some s
  end.

(** The fuel a call hands to the scan. *)
Definition fuel_of (o : op) : nat :=
  match o with
  | Create _ => O
  | Wait fuel _ | Sleep fuel _ | Poll fuel | Exit fuel | Yield fuel => fuel
  end.

(** A clock that advances 10 ms per reading and stops at 5000. *)
Definition clk_capped : nat -> Z := fun k => Z.min (1000 + 10 * Z.of_nat k) 5000.

(** * Properties *)

(** ** The monad and the primitive accesses *)

Ltac unfold_m :=
  unfold bind, ret, gets, modify, emit, load, store, time_ms, getch in *.

Lemma in_table_true (i : Z) : in_table i = true <-> 0 <= i < MAX_TASKS.
Proof. unfold in_table. rewrite andb_true_iff, Z.leb_le, Z.ltb_lt. tauto. Qed.

Lemma task_at_Some (i : Z) (s : sched) (t : task_info) :
  task_at i s = Some t -> 0 <= i < MAX_TASKS /\ tasks s !! Z.to_nat i = Some t.
Proof.
  unfold task_at. destruct (in_table i) eqn:E; [|discriminate].
  apply in_table_true in E. auto.
Qed.

Lemma task_at_in_table (i : Z) (s : sched) :
  length (tasks s) = Z.to_nat MAX_TASKS -> 0 <= i < MAX_TASKS ->
  exists t, task_at i s = Some t.
Proof.
  intros Hlen Hi. unfold task_at.
  destruct (in_table i) eqn:E.
  - apply lookup_lt_is_Some_2. rewrite Hlen. lia.
  - apply in_table_true in Hi. congruence.
Qed.

Lemma task_at_outside (i : Z) (s : sched) :
  ~ 0 <= i < MAX_TASKS -> task_at i s = None.
Proof.
  intros Hi. unfold task_at. destruct (in_table i) eqn:E; [|reflexivity].
  apply in_table_true in E. contradiction.
Qed.

Lemma task_at_put_eq (i : Z) (s : sched) (t u : task_info) :
  task_at i s = Some t -> task_at i (put_task i u s) = Some u.
Proof.
  intros H. apply task_at_Some in H as [Hi Hl].
  unfold task_at. apply in_table_true in Hi. rewrite Hi. simpl.
  apply list_lookup_insert_eq. eapply lookup_lt_Some; eauto.
Qed.

Lemma task_at_put_ne (i j : Z) (s : sched) (u : task_info) :
  0 <= i -> i <> j -> task_at j (put_task i u s) = task_at j s.
Proof.
  intros Hi Hne. unfold task_at. destruct (in_table j) eqn:E; [|reflexivity].
  apply in_table_true in E. simpl.
  apply list_lookup_insert_ne. lia.
Qed.

Lemma task_at_selected_eq (j : Z) (s : sched) (t : task_info) :
  task_at j s = Some t ->
  task_at j (selected j t s) = Some (set_waiting_for (-1) t).
Proof. intros H. exact (task_at_put_eq j s t _ H). Qed.

Lemma task_at_selected_ne (i j : Z) (s : sched) (t : task_info) :
  0 <= j -> j <> i -> task_at i (selected j t s) = task_at i s.
Proof. intros Hj Hne. exact (task_at_put_ne j i s _ Hj Hne). Qed.

(** ** Readiness *)

Lemma is_ready_unfold (t : task_info) (s : sched) :
  is_ready t s =
  if is_alive t =? 0 then Ok false s
  else if waiting_for t =? -1
       then Ok (wake_time t <=? now_at s (time_calls s)) (tick s)
       else match task_at (waiting_for t) s with
            | None => OutOfBounds (waiting_for t) s
            | Some other =>
                if is_alive other =? 0
                then Ok (wake_time t <=? now_at s (time_calls s)) (tick s)
                else Ok false s
            end.
Proof.
  unfold is_ready. destruct (is_alive t =? 0); [reflexivity|].
  unfold_m. destruct (waiting_for t =? -1); [reflexivity|].
  destruct (task_at (waiting_for t) s) as [other|]; [|reflexivity].
  destruct (is_alive other =? 0); reflexivity.
Qed.

Lemma is_ready_true (t : task_info) (s s1 : sched) :
  is_ready t s = Ok true s1 <-> ready_now t s /\ s1 = tick s.
Proof.
  rewrite is_ready_unfold. unfold ready_now, wait_over.
  destruct (Z.eqb_spec (is_alive t) 0) as [Ha|Ha].
  { split; [discriminate|]. intros [[? _] _]. contradiction. }
  destruct (Z.eqb_spec (waiting_for t) (-1)) as [Hw|Hw].
  { split.
    - intros [= Hb <-]. apply Z.leb_le in Hb. auto.
    - intros [(_ & _ & Hb) ->]. apply Z.leb_le in Hb. rewrite Hb. reflexivity. }
  destruct (task_at (waiting_for t) s) as [other|] eqn:Ho.
  - destruct (Z.eqb_spec (is_alive other) 0) as [Hd|Hd].
    + split.
      * intros [= Hb <-]. apply Z.leb_le in Hb. eauto 10.
      * intros [(_ & _ & Hb) ->]. apply Z.leb_le in Hb. rewrite Hb. reflexivity.
    + split; [discriminate|].
      intros [(_ & [?|(o & [= <-] & ?)] & _) _]; contradiction.
  - split; [discriminate|].
    intros [(_ & [?|(o & ? & ?)] & _) _]; [contradiction|discriminate].
Qed.

Lemma is_ready_false (t : task_info) (s s1 : sched) :
  is_ready t s = Ok false s1 -> ~ ready_now t s /\ (s1 = s \/ s1 = tick s).
Proof.
  rewrite is_ready_unfold. unfold ready_now, wait_over.
  destruct (Z.eqb_spec (is_alive t) 0) as [Ha|Ha].
  { intros [= <-]. split; [|auto]. intros [? _]. contradiction. }
  destruct (Z.eqb_spec (waiting_for t) (-1)) as [Hw|Hw].
  { intros [= Hb <-]. apply Z.leb_gt in Hb. split; [|auto].
    intros (_ & _ & ?). lia. }
  destruct (task_at (waiting_for t) s) as [other|] eqn:Ho; [|discriminate].
  destruct (Z.eqb_spec (is_alive other) 0) as [Hd|Hd].
  - intros [= Hb <-]. apply Z.leb_gt in Hb. split; [|auto].
    intros (_ & _ & ?). lia.
  - intros [= <-]. split; [|auto].
    intros (_ & [?|(o & [= <-] & ?)] & _); contradiction.
Qed.

(** ** The scan *)

Lemma switch_to_Some (j : Z) (t : task_info) (s : sched) :
  task_at j s = Some t -> switch_to j s = Ok tt (selected j t s).
Proof.
  intros H. unfold switch_to. unfold_m. simpl.
  change (task_at j (with_current_task j s)) with (task_at j s).
  rewrite H. reflexivity.
Qed.

Lemma select_spec_Some (j : Z) (t : task_info) (s : sched) :
  task_at j s = Some t -> select_spec j s = Ok tt (selected j t s).
Proof.
  intros H. unfold select_spec. unfold_m. rewrite H. reflexivity.
Qed.

(** A scan that returns has picked a slot whose record satisfied the three
    conditions against a clock reading taken during the scan; the table is
    otherwise untouched. *)
Lemma scan_Ok (fuel : nat) :
  forall i s s', scan fuel i s = Ok tt s' ->
  exists j t k,
    (time_calls s <= k)%nat /\ task_at j s = Some t /\
    is_alive t <> 0 /\ wait_over t s /\ wake_time t <= now_at s k /\
    s' = selected j t (with_time_calls (S k) s) /\
    (j = i \/ j = 0 \/ 0 < j < num_tasks s).
Proof.
  induction fuel as [|fuel IH]; intros i s s' H; [discriminate|].
  simpl in H. unfold bind at 1, load in H.
  destruct (task_at i s) as [t|] eqn:Ht; [|discriminate].
  unfold bind at 1 in H.
  destruct (is_ready t s) as [[|] s1| |] eqn:Hr; try discriminate.
  - apply is_ready_true in Hr as [(Ha & Hw & Hk) ->].
    rewrite (switch_to_Some i t) in H by exact Ht.
    injection H as <-.
    exists i, t, (time_calls s). repeat split; auto.
  - apply is_ready_false in Hr as [_ Hs1].
    unfold bind, gets in H.
    apply IH in H as (j & t' & k & Hk & Hj & Ha & Hw & Hwk & -> & Hrange).
    destruct Hs1 as [-> | ->].
    + exists j, t', k. repeat split; auto.
      destruct Hrange as [-> | ?]; [|auto]. right.
      apply task_at_Some in Ht as [Ht _].
      destruct (Z.geb_spec (i + 1) (num_tasks s)); lia.
    + exists j, t', k. simpl in Hk. repeat split; auto; try lia.
      destruct Hrange as [-> | ?]; [|auto]. right.
      apply task_at_Some in Ht as [Ht _]. simpl.
      destruct (Z.geb_spec (i + 1) (num_tasks s)); lia.
Qed.

(** ** Preservation of the invariant *)

Lemma sched_inv_table (s : sched) : sched_inv s -> table_inv s.
Proof.
  intros [Hlen (_ & _ & Hn) Hu _]. repeat split; auto.
Qed.

Lemma table_inv_put (i : Z) (u : task_info) (s : sched) :
  table_inv s -> 0 <= i < num_tasks s -> table_inv (put_task i u s).
Proof.
  intros (Hlen & Hn & Hu) Hi. repeat split; auto.
  - simpl. rewrite length_insert. exact Hlen.
  - intros j Hj. rewrite task_at_put_ne by (simpl in Hj; lia).
    apply Hu. exact Hj.
Qed.

(** A live record sits in a claimed slot. *)
Lemma alive_claimed (j : Z) (t : task_info) (s : sched) :
  table_inv s -> task_at j s = Some t -> is_alive t <> 0 ->
  0 <= j < num_tasks s.
Proof.
  intros (_ & _ & Hu) Hj Ha.
  pose proof (task_at_Some _ _ _ Hj) as [Hr _].
  destruct (Z.lt_ge_cases j (num_tasks s)) as [?|Hge]; [lia|].
  rewrite Hu in Hj by lia. injection Hj as <-. contradiction.
Qed.

Lemma selected_inv (j : Z) (t : task_info) (k : nat) (s : sched) :
  table_inv s -> task_at j s = Some t -> is_alive t <> 0 ->
  wake_time t <= now_at s k ->
  sched_inv (selected j t (with_time_calls (S k) s)).
Proof.
  intros Ht Hj Ha Hk.
  pose proof (alive_claimed _ _ _ Ht Hj Ha) as Hr.
  destruct Ht as (Hlen & Hn & Hu).
  split.
  - simpl. rewrite length_insert. exact Hlen.
  - unfold index_inv. simpl. lia.
  - intros i Hi. simpl in Hi.
    rewrite task_at_selected_ne by lia. apply Hu. exact Hi.
  - exists (set_waiting_for (-1) t). split; [|split; [|split]].
    + apply (task_at_selected_eq j (with_time_calls (S k) s) t). exact Hj.
    + exact Ha.
    + reflexivity.
    + right. exists k. split; [simpl; lia|exact Hk].
Qed.

Lemma scan_inv (fuel : nat) (i : Z) (s s' : sched) :
  table_inv s -> scan fuel i s = Ok tt s' -> sched_inv s'.
Proof.
  intros Ht H.
  apply scan_Ok in H as (j & t & k & _ & Hj & Ha & _ & Hk & -> & _).
  apply selected_inv; assumption.
Qed.

(** What the calls that end in a scan do before it. *)
Lemma task_wait_unfold (fuel : nat) (h : Z) (s : sched) :
  task_wait fuel h s =
  match task_at (current_task s) s with
  | Some t =>
      scan fuel (current_task s + 1)
           (put_task (current_task s) (set_waiting_for h t) s)
  | None => OutOfBounds (current_task s) s
  end.
Proof.
  unfold task_wait, schedule_next. unfold_m.
  destruct (task_at (current_task s) s); reflexivity.
Qed.

Lemma task_sleep_unfold (fuel : nat) (ms : Z) (s : sched) :
  task_sleep fuel ms s =
  match task_at (current_task s) s with
  | Some t =>
      scan fuel (current_task s + 1)
           (put_task (current_task s)
              (set_wake_time (to_size_t (now_at s (time_calls s) + ms)) t)
              (tick s))
  | None => OutOfBounds (current_task s) (tick s)
  end.
Proof.
  unfold task_sleep, schedule_next. unfold_m. simpl.
  change (task_at (current_task s) (with_time_calls (S (time_calls s)) s))
    with (task_at (current_task s) s).
  destruct (task_at (current_task s) s); reflexivity.
Qed.

(** The globals of [task_exit] at the point where it calls [schedule_next]. *)
Lemma task_exit_unfold (fuel : nat) (s : sched) :
  task_exit fuel s =
  match task_at (current_task s) s with
  | Some t =>
      scan fuel (current_task s + 1)
           (with_calls (calls s ++ [free_stack (context (current_task s));
                                    free_stack (exit_context (current_task s))])
              (put_task (current_task s) (set_is_alive 0 t)
                 (with_num_alive (num_alive s - 1) s)))
  | None => OutOfBounds (current_task s) (with_num_alive (num_alive s - 1) s)
  end.
Proof.
  unfold task_exit, schedule_next. unfold_m. simpl.
  change (task_at (current_task s) (with_num_alive (num_alive s - 1) s))
    with (task_at (current_task s) s).
  destruct (task_at (current_task s) s); [|reflexivity].
  simpl. rewrite <- app_assoc. reflexivity.
Qed.

Lemma readchar_poll_unfold (fuel : nat) (s : sched) :
  readchar_poll fuel s =
  let s1 := with_getch_calls (S (getch_calls s)) s in
  if keys s (getch_calls s) =? ERR
  then match scan fuel (current_task s + 1) s1 with
       | Ok _ s' => Ok None s'
       | OutOfBounds i s' => OutOfBounds i s'
       | OutOfFuel => OutOfFuel
       end
  else Ok (Some (keys s (getch_calls s))) s1.
Proof.
  unfold readchar_poll, schedule_next. unfold_m. simpl.
  destruct (keys s (getch_calls s) =? ERR); reflexivity.
Qed.

(** The globals [task_create] leaves when slot [num_tasks] is in the table. *)
Lemma task_create_unfold (fn : nat) (s : sched) :
  task_create fn s =
  let n := num_tasks s in
  let s1 := with_num_alive (num_alive s + 1) (with_num_tasks (n + 1) s) in
  match task_at n s with
  | Some t =>
      Ok n (with_calls
              (calls s ++ [getcontext (exit_context n);
                           malloc_stack (exit_context n) STACK_SIZE;
                           makecontext (exit_context n) entry_task_exit;
                           getcontext (context n);
                           malloc_stack (context n) STACK_SIZE;
                           set_uc_link (context n) (exit_context n);
                           makecontext (context n) (entry_fn fn)])
              (put_task n (mk_task 1 (wake_time t) (-1)) s1))
  | None => OutOfBounds n s1
  end.
Proof.
  unfold task_create. unfold_m. simpl.
  change (task_at (num_tasks s)
            (with_num_alive (num_alive s + 1)
               (with_num_tasks (num_tasks s + 1) s)))
    with (task_at (num_tasks s) s).
  destruct (task_at (num_tasks s) s) as [t|] eqn:Ht; [|reflexivity].
  erewrite task_at_put_eq by (exact Ht).
  simpl. unfold put_task, with_tasks. simpl.
  rewrite list_insert_insert_eq.
  repeat rewrite <- app_assoc. reflexivity.
Qed.

Lemma scheduler_init_unfold (s : sched) :
  scheduler_init s =
  let s1 := with_num_alive 1 (with_num_tasks 1 (with_current_task 0 s)) in
  match task_at 0 s with
  | Some t =>
      Ok tt (with_calls (calls s ++ [getcontext (context 0)])
               (put_task 0 (mk_task 1 (wake_time t) (-1)) s1))
  | None => OutOfBounds 0 s1
  end.
Proof.
  unfold scheduler_init. unfold_m. simpl.
  change (task_at 0 (with_num_alive 1 (with_num_tasks 1 (with_current_task 0 s))))
    with (task_at 0 s).
  destruct (task_at 0 s) as [t|] eqn:Ht; [|reflexivity].
  erewrite task_at_put_eq by (exact Ht).
  simpl. unfold put_task, with_tasks. simpl.
  rewrite list_insert_insert_eq. reflexivity.
Qed.

Lemma task_at_boot (clk inp : nat -> Z) (i : Z) :
  0 <= i < MAX_TASKS -> task_at i (boot clk inp) = Some zero_task.
Proof.
  intros Hi. unfold task_at. apply in_table_true in Hi as Hb. rewrite Hb.
  unfold boot. cbn [tasks]. apply lookup_replicate_2. lia.
Qed.

Lemma scheduler_init_boot (clk inp : nat -> Z) :
  scheduler_init (boot clk inp) = Ok tt (started clk inp).
Proof.
  rewrite scheduler_init_unfold.
  rewrite task_at_boot by (unfold MAX_TASKS; lia). reflexivity.
Qed.

Lemma init_inv (clk inp : nat -> Z) (s : sched) :
  scheduler_init (boot clk inp) = Ok tt s -> sched_inv s.
Proof.
  rewrite scheduler_init_boot. intros [= <-]. split.
  - reflexivity.
  - unfold index_inv, MAX_TASKS, started. cbn [current_task num_tasks]. lia.
  - intros i Hi. unfold started in Hi. cbn [num_tasks] in Hi.
    change (task_at i (put_task 0 (mk_task 1 0 (-1)) (boot clk inp)) = Some zero_task).
    rewrite task_at_put_ne by lia. apply task_at_boot. lia.
  - exists (mk_task 1 0 (-1)). split; [|split; [|split]].
    + reflexivity.
    + simpl. lia.
    + reflexivity.
    + left. reflexivity.
Qed.

Lemma task_create_inv (fn : nat) (h : Z) (s s' : sched) :
  sched_inv s -> task_create fn s = Ok h s' -> sched_inv s'.
Proof.
  intros [Hlen (Hc0 & Hcn & Hn) Hu (tc & Htc & Hrun)].
  rewrite task_create_unfold. cbv zeta.
  destruct (task_at (num_tasks s) s) as [t|] eqn:Ht; [|discriminate].
  intros [= <- <-].
  pose proof (task_at_Some _ _ _ Ht) as [Hr _].
  split.
  - simpl. rewrite length_insert. exact Hlen.
  - unfold index_inv. simpl. lia.
  - intros i Hi. simpl in Hi.
    change (task_at i (put_task (num_tasks s) (mk_task 1 (wake_time t) (-1)) s)
            = Some zero_task).
    rewrite task_at_put_ne by lia. apply Hu. lia.
  - exists tc. split; [|exact Hrun]. simpl.
    change (task_at (current_task s)
              (put_task (num_tasks s) (mk_task 1 (wake_time t) (-1)) s) = Some tc).
    rewrite task_at_put_ne by lia. exact Htc.
Qed.

Lemma step_inv (o : op) (s s' : sched) :
  sched_inv s -> step o s = Ok tt s' -> sched_inv s'.
Proof.
  intros Hinv H.
  pose proof (sched_inv_table _ Hinv) as Ht.
  pose proof (inv_index _ Hinv) as (Hc0 & Hcn & _).
  destruct o as [fn|fuel h|fuel ms|fuel|fuel|fuel]; simpl in H.
  - unfold bind, ret in H.
    destruct (task_create fn s) as [h s1| |] eqn:Hc; try discriminate.
    injection H as <-. eapply task_create_inv; eauto.
  - rewrite task_wait_unfold in H.
    destruct (task_at (current_task s) s) as [t|]; [|discriminate].
    eapply scan_inv; [|exact H]. apply table_inv_put; auto.
  - rewrite task_sleep_unfold in H.
    destruct (task_at (current_task s) s) as [t|]; [|discriminate].
    eapply scan_inv; [|exact H].
    apply (table_inv_put _ _ (tick s)); auto.
  - unfold bind, ret in H. rewrite readchar_poll_unfold in H. cbv zeta in H.
    destruct (keys s (getch_calls s) =? ERR).
    + destruct (scan fuel (current_task s + 1)
                  (with_getch_calls (S (getch_calls s)) s))
        as [[] s1| |] eqn:Hs; try discriminate.
      injection H as <-. eapply scan_inv; [|exact Hs]. exact Ht.
    + injection H as <-. destruct Hinv. split; assumption.
  - rewrite task_exit_unfold in H.
    destruct (task_at (current_task s) s) as [t|]; [|discriminate].
    eapply scan_inv; [|exact H].
    apply (table_inv_put _ _ (with_num_alive (num_alive s - 1) s)); auto.
  - eapply scan_inv; [|exact H]. exact Ht.
Qed.

Lemma reachable_inv (clk inp : nat -> Z) (s : sched) :
  reachable clk inp s -> sched_inv s.
Proof.
  induction 1 as [s H|o s s' _ IH H].
  - eapply init_inv; eauto.
  - eapply step_inv; eauto.
Qed.

(** ** What a call leaves alone *)

Lemma scan_frame (fuel : nat) (i : Z) (s s' : sched) :
  scan fuel i s = Ok tt s' ->
  clock s' = clock s /\ keys s' = keys s /\ num_tasks s' = num_tasks s /\
  (time_calls s < time_calls s')%nat /\ getch_calls s' = getch_calls s /\
  exists j, current_task s' = j /\
            calls s' = calls s ++ [swapcontext (context (current_task s)) (context j)].
Proof.
  intros H. apply scan_Ok in H as (j & t & k & Hk & _ & _ & _ & _ & -> & _).
  simpl. repeat split; auto; try lia. exists j. auto.
Qed.

Lemma step_frame (o : op) (s s' : sched) :
  step o s = Ok tt s' ->
  clock s' = clock s /\ keys s' = keys s /\ num_tasks s <= num_tasks s' /\
  (time_calls s <= time_calls s')%nat.
Proof.
  intros H.
  destruct o as [fn|fuel h|fuel ms|fuel|fuel|fuel]; simpl in H.
  - unfold bind, ret in H. rewrite task_create_unfold in H. cbv zeta in H.
    destruct (task_at (num_tasks s) s); [|discriminate].
    injection H as <-. simpl. repeat split; auto; lia.
  - rewrite task_wait_unfold in H.
    destruct (task_at (current_task s) s) as [t|]; [|discriminate].
    apply scan_frame in H as (-> & -> & -> & ? & _). simpl in *.
    repeat split; auto; lia.
  - rewrite task_sleep_unfold in H.
    destruct (task_at (current_task s) s) as [t|]; [|discriminate].
    apply scan_frame in H as (-> & -> & -> & ? & _). simpl in *.
    repeat split; auto; lia.
  - unfold bind, ret in H. rewrite readchar_poll_unfold in H. cbv zeta in H.
    destruct (keys s (getch_calls s) =? ERR).
    + destruct (scan _ _ _) as [[] s1| |] eqn:Hs; try discriminate.
      injection H as <-.
      apply scan_frame in Hs as (-> & -> & -> & ? & _). simpl in *.
      repeat split; auto; lia.
    + injection H as <-. simpl. repeat split; auto; lia.
  - rewrite task_exit_unfold in H.
    destruct (task_at (current_task s) s) as [t|]; [|discriminate].
    apply scan_frame in H as (-> & -> & -> & ? & _). simpl in *.
    repeat split; auto; lia.
  - apply scan_frame in H as (-> & -> & -> & ? & _).
    repeat split; auto; lia.
Qed.

Lemma run_cons (o : op) (ops : list op) (s s' : sched) :
  run (o :: ops) s = Ok tt s' ->
  exists s1, step o s = Ok tt s1 /\ run ops s1 = Ok tt s'.
Proof.
  simpl. unfold bind. destruct (step o s) as [[] s1| |]; try discriminate.
  eauto.
Qed.

Lemma run_frame (ops : list op) :
  forall s s', run ops s = Ok tt s' ->
  clock s' = clock s /\ keys s' = keys s /\ num_tasks s <= num_tasks s' /\
  (time_calls s <= time_calls s')%nat.
Proof.
  induction ops as [|o ops IH]; intros s s' H.
  - injection H as <-. repeat split; auto; lia.
  - apply run_cons in H as (s1 & H1 & H2).
    apply step_frame in H1 as (? & ? & ? & ?).
    apply IH in H2 as (? & ? & ? & ?).
    repeat split; try congruence; lia.
Qed.

Lemma reachable_run (clk inp : nat -> Z) (ops : list op) :
  forall s s', reachable clk inp s -> run ops s = Ok tt s' ->
  reachable clk inp s'.
Proof.
  induction ops as [|o ops IH]; intros s s' Hr H.
  - injection H as <-. exact Hr.
  - apply run_cons in H as (s1 & H1 & H2).
    eapply IH; [|exact H2]. eapply reachable_step; eauto.
Qed.

Lemma reachable_started (clk inp : nat -> Z) : reachable clk inp (started clk inp).
Proof. apply reachable_init. apply scheduler_init_boot. Qed.

Lemma reachable_env (clk inp : nat -> Z) (s : sched) :
  reachable clk inp s -> clock s = clk /\ keys s = inp.
Proof.
  induction 1 as [s H|o s s' _ [IH1 IH2] H].
  - rewrite scheduler_init_boot in H. injection H as <-. auto.
  - apply step_frame in H as (-> & -> & _). auto.
Qed.

Lemma run_fill_table :
  run fill_table (started clk0 keys0) = Ok tt (state_after fill_table).
Proof. vm_compute. reflexivity. Qed.

Lemma run_reach_last_slot :
  run reach_last_slot (started clk0 keys0) = Ok tt (state_after reach_last_slot).
Proof. vm_compute. reflexivity. Qed.

Lemma run_wait_past_table :
  run wait_past_table (started clk0 keys0) = Ok tt (state_after wait_past_table).
Proof. vm_compute. reflexivity. Qed.

Lemma reachable_fill_table : reachable clk0 keys0 (state_after fill_table).
Proof.
  eapply reachable_run; [apply reachable_started|apply run_fill_table].
Qed.

Lemma reachable_last_slot : reachable clk0 keys0 (state_after reach_last_slot).
Proof.
  eapply reachable_run; [apply reachable_started|apply run_reach_last_slot].
Qed.

Lemma reachable_wait_past_table :
  reachable clk0 keys0 (state_after wait_past_table).
Proof.
  eapply reachable_run; [apply reachable_started|apply run_wait_past_table].
Qed.

Lemma now_at_range (s : sched) (k : nat) : 0 <= now_at s k < 2 ^ SIZE_BITS.
Proof. unfold now_at, to_size_t. apply Z.mod_pos_bound. reflexivity. Qed.

(** ** The model at work *)

(** Three tasks, each yielding in turn: the host's yield runs task 1, task 1's
    runs task 2, and task 2's, after a probe of the unclaimed slot 3, wraps
    around to the host. *)
Example round_robin :
  current_task (state_after [Create 0; Create 1; Yield 1]) = 1 /\
  current_task (state_after [Create 0; Create 1; Yield 1; Yield 1]) = 2 /\
  current_task (state_after [Create 0; Create 1; Yield 1; Yield 1; Yield 2]) = 0 /\
  step (Yield 1) (state_after [Create 0; Create 1; Yield 1; Yield 1]) = OutOfFuel.
Proof. repeat split; vm_compute; reflexivity. Qed.

(** The host, alone, sleeps 25 ms from clock value 1000: the scan polls the
    clock until it reads 1030 and then switches to the host itself. *)
Example sleep_alone :
  task_sleep 3 25 (started clk_ticks keys0) = OutOfFuel /\
  exists s',
    task_sleep 4 25 (started clk_ticks keys0) = Ok tt s' /\
    task_at 0 s' = Some (mk_task 1 1025 (-1)) /\
    time_calls s' = 4%nat /\
    calls s' = [getcontext (context 0); swapcontext (context 0) (context 0)].
Proof.
  split; [vm_compute; reflexivity|].
  eexists. split; [vm_compute; reflexivity|]. repeat split.
Qed.

(** The host waits for a task that never exits: whoever runs next, a scan
    started by task 1 with no other ready task comes back to task 1. *)
Example wait_blocks :
  current_task (state_after [Create 0; Wait 1 1]) = 1 /\
  current_task (state_after [Create 0; Wait 1 1; Yield 3]) = 1 /\
  current_task (state_after [Create 0; Wait 1 1; Exit 3]) = 0.
Proof. repeat split; vm_compute; reflexivity. Qed.

(** The host reads a character that arrives at the third poll: two yields,
    then the character. *)
Example readchar_third_poll :
  exists s',
    task_readchar (fun s => s) 3 2 (started clk0 keys_late) = Ok 97 s' /\
    getch_calls s' = 3%nat /\
    calls s' = [getcontext (context 0);
                swapcontext (context 0) (context 0);
                swapcontext (context 0) (context 0)].
Proof. eexists. split; [vm_compute; reflexivity|]. split; reflexivity. Qed.

(** * The claims *)

(** ** Initialisation *)

(** C6. Called once at program start, [scheduler_init] returns and leaves
    task 0 alive, waiting for nobody, with wake-up time 0; the current task
    is 0 and one slot is claimed. *)
Theorem scheduler_init_registers_host (clk inp : nat -> Z) :
  exists s,
    scheduler_init (boot clk inp) = Ok tt s /\
    task_at 0 s = Some (mk_task 1 0 (-1)) /\
    current_task s = 0 /\
    num_tasks s = 1.
Proof.
  exists (started clk inp). split; [apply scheduler_init_boot|].
  repeat split.
Qed.

(** ** Bounds of the indices *)

(** C3, amended. In every state reached from [scheduler_init] through calls
    that return, [0 <= current_task < num_tasks <= MAX_TASKS]. *)
Theorem reachable_index_inv (clk inp : nat -> Z) (s : sched) :
  reachable clk inp s -> index_inv s.
Proof. intros H. apply reachable_inv in H. apply (inv_index _ H). Qed.

Lemma reachable_index_inv_witness :
  reachable clk0 keys0 (state_after fill_table) /\
  index_inv (state_after fill_table).
Proof.
  split; [apply reachable_fill_table|].
  apply (reachable_index_inv clk0 keys0). apply reachable_fill_table.
Defined.

(** C3 as stated fails: [scheduler_init] followed by 128 calls to
    [task_create] ends with [num_tasks = 129], at the point where the last
    call writes [tasks[128]]. *)
Lemma index_inv_broken_by_overfill :
  exists s,
    (scheduler_init;; run overfill_table) (boot clk0 keys0) = OutOfBounds MAX_TASKS s /\
    num_tasks s = MAX_TASKS + 1 /\
    ~ index_inv s.
Proof.
  exists (state_after overfill_table). split; [|split].
  - unfold bind at 1. rewrite scheduler_init_boot. vm_compute. reflexivity.
  - vm_compute. reflexivity.
  - intros (_ & _ & H). vm_compute in H. apply H. reflexivity.
Qed.

(** ** Creation *)

(** C4, amended. [task_create] checks nothing and reports nothing: called
    when all [MAX_TASKS] slots are claimed it increments [num_tasks] and
    [num_alive] and then writes [tasks[MAX_TASKS]], outside the table. *)
Theorem task_create_unchecked (fn : nat) (s : sched) :
  num_tasks s = MAX_TASKS ->
  task_create fn s =
  OutOfBounds MAX_TASKS
    (with_num_alive (num_alive s + 1) (with_num_tasks (MAX_TASKS + 1) s)).
Proof.
  intros Hn. rewrite task_create_unfold. cbv zeta. rewrite Hn.
  rewrite task_at_outside by lia. reflexivity.
Qed.

Lemma task_create_unchecked_witness :
  num_tasks (state_after fill_table) = MAX_TASKS /\
  task_create 0 (state_after fill_table) =
  OutOfBounds MAX_TASKS
    (with_num_alive (num_alive (state_after fill_table) + 1)
       (with_num_tasks (MAX_TASKS + 1) (state_after fill_table))).
Proof.
  split; [vm_compute; reflexivity|].
  apply (task_create_unchecked 0 (state_after fill_table)).
  vm_compute. reflexivity.
Defined.

(** C4 as stated fails: after 127 creations the table is full, and one more
    [task_create] does not fail with an error but writes past the table. *)
Lemma task_create_past_capacity :
  reachable clk0 keys0 (state_after fill_table) /\
  num_tasks (state_after fill_table) = MAX_TASKS /\
  exists s',
    task_create 0 (state_after fill_table) = OutOfBounds MAX_TASKS s' /\
    num_tasks s' = MAX_TASKS + 1.
Proof.
  split; [apply reachable_fill_table|].
  split; [vm_compute; reflexivity|].
  eexists. split; [vm_compute; reflexivity|]. reflexivity.
Qed.

(** C5. In a reachable state with [num_tasks = n < MAX_TASKS], [task_create]
    returns the handle [n]; slot [n] is alive and waits for nobody;
    [num_tasks] becomes [n + 1] and no later creation returns a handle
    [<= n]; the current task is unchanged and no [swapcontext] is issued;
    and the new record is ready at once. *)
Theorem task_create_claims_next_slot (clk inp : nat -> Z) (s : sched) (fn : nat) :
  reachable clk inp s ->
  num_tasks s < MAX_TASKS ->
  exists s',
    task_create fn s = Ok (num_tasks s) s' /\
    num_tasks s' = num_tasks s + 1 /\
    task_at (num_tasks s) s' = Some (mk_task 1 0 (-1)) /\
    current_task s' = current_task s /\
    (exists l, calls s' = calls s ++ l /\ no_switch l) /\
    is_ready (mk_task 1 0 (-1)) s' = Ok true (tick s') /\
    (forall ops s'' fn' h s3,
        run ops s' = Ok tt s'' -> task_create fn' s'' = Ok h s3 ->
        num_tasks s < h).
Proof.
  intros Hr Hn. apply reachable_inv in Hr.
  destruct Hr as [Hlen (Hc0 & Hcn & _) Hu _].
  assert (Ht : task_at (num_tasks s) s = Some zero_task) by (apply Hu; lia).
  rewrite task_create_unfold. cbv zeta. rewrite Ht.
  eexists. split; [reflexivity|]. split; [reflexivity|]. split; [|split; [|split; [|split]]].
  - exact (task_at_put_eq (num_tasks s) s zero_task _ Ht).
  - reflexivity.
  - eexists. split; [reflexivity|].
    intros a b Hin. simpl in Hin.
    repeat (destruct Hin as [Hin|Hin]; [discriminate|]). exact Hin.
  - rewrite is_ready_unfold. simpl.
    match goal with |- context [now_at ?s0 ?k] =>
      pose proof (now_at_range s0 k) as Hnow end.
    simpl in Hnow.
    match goal with |- context [0 <=? ?x] =>
      destruct (Z.leb_spec 0 x); [reflexivity|lia] end.
  - intros ops s'' fn' h s3 Hrun Hc.
    apply run_frame in Hrun as (_ & _ & Hmono & _). simpl in Hmono.
    rewrite task_create_unfold in Hc. cbv zeta in Hc.
    destruct (task_at (num_tasks s'') s''); [|discriminate].
    injection Hc as <- _. lia.
Qed.

Lemma task_create_claims_next_slot_witness :
  reachable clk0 keys0 (started clk0 keys0) /\
  num_tasks (started clk0 keys0) < MAX_TASKS /\
  exists s', task_create 7 (started clk0 keys0) = Ok 1 s' /\
             task_at 1 s' = Some (mk_task 1 0 (-1)).
Proof.
  split; [apply reachable_started|]. split; [reflexivity|].
  destruct (task_create_claims_next_slot clk0 keys0 (started clk0 keys0) 7)
    as (s' & H1 & _ & H3 & _).
  - apply reachable_started.
  - reflexivity.
  - exists s'. split; [exact H1|exact H3].
Defined.

(** ** The readiness predicate *)

(** C2, amended. For a record that is dead, waits for nobody, or waits for
    a slot inside the table, [is_ready] returns; it returns true exactly when
    the record is alive, its wait is over, and its wake-up time is not after
    the clock; and it changes nothing except that the clock may have been
    read once. *)
Theorem is_ready_decides (t : task_info) (s : sched) :
  is_alive t = 0 \/ waiting_for t = -1 \/ is_Some (task_at (waiting_for t) s) ->
  exists b s',
    is_ready t s = Ok b s' /\
    (b = true <-> ready_now t s) /\
    (s' = s \/ s' = tick s).
Proof.
  intros Hvalid.
  destruct (is_ready t s) as [[|] s1|i s1|] eqn:Hr.
  - apply is_ready_true in Hr as [Hready ->].
    exists true, (tick s). split; [reflexivity|]. split; [tauto|auto].
  - apply is_ready_false in Hr as [Hnot Hs1].
    exists false, s1. split; [reflexivity|]. split; [|exact Hs1].
    split; [discriminate|contradiction].
  - exfalso. rewrite is_ready_unfold in Hr.
    destruct (Z.eqb_spec (is_alive t) 0) as [Ha|Ha]; [discriminate|].
    destruct (Z.eqb_spec (waiting_for t) (-1)) as [Hw|Hw]; [discriminate|].
    destruct Hvalid as [?|[?|[o Ho]]]; try contradiction.
    rewrite Ho in Hr. destruct (is_alive o =? 0); discriminate.
  - exfalso. rewrite is_ready_unfold in Hr.
    destruct (is_alive t =? 0); [discriminate|].
    destruct (waiting_for t =? -1); [discriminate|].
    destruct (task_at (waiting_for t) s) as [o|]; [|discriminate].
    destruct (is_alive o =? 0); discriminate.
Qed.

Lemma is_ready_decides_witness :
  (is_alive (mk_task 1 0 0) = 0 \/ waiting_for (mk_task 1 0 0) = -1 \/
   is_Some (task_at (waiting_for (mk_task 1 0 0)) (started clk0 keys0))) /\
  exists b s',
    is_ready (mk_task 1 0 0) (started clk0 keys0) = Ok b s' /\
    (b = true <-> ready_now (mk_task 1 0 0) (started clk0 keys0)) /\
    (s' = started clk0 keys0 \/ s' = tick (started clk0 keys0)).
Proof.
  assert (H : is_alive (mk_task 1 0 0) = 0 \/ waiting_for (mk_task 1 0 0) = -1 \/
              is_Some (task_at (waiting_for (mk_task 1 0 0)) (started clk0 keys0))).
  { right. right. exists (mk_task 1 0 (-1)). reflexivity. }
  split; [exact H|].
  apply (is_ready_decides (mk_task 1 0 0) (started clk0 keys0)). exact H.
Defined.

(** C2 as stated fails: after the host has called [task_wait] with the
    handle [MAX_TASKS], its record is alive and waits for a slot past the
    table; [is_ready] on that record reads [tasks[MAX_TASKS]] and returns
    nothing. *)
Lemma is_ready_reads_past_table :
  reachable clk0 keys0 (state_after wait_past_table) /\
  task_at 0 (state_after wait_past_table) = Some (mk_task 1 0 MAX_TASKS) /\
  is_ready (mk_task 1 0 MAX_TASKS) (state_after wait_past_table) =
  OutOfBounds MAX_TASKS (state_after wait_past_table).
Proof.
  split; [apply reachable_wait_past_table|].
  split; vm_compute; reflexivity.
Qed.

(** ** The scan against its description *)

Lemma is_ready_dead (t : task_info) (s : sched) :
  is_alive t = 0 -> is_ready t s = Ok false s.
Proof. intros H. unfold is_ready. rewrite H. reflexivity. Qed.

Lemma scan_unfold (fuel : nat) (i : Z) (s : sched) :
  scan (S fuel) i s =
  match task_at i s with
  | None => OutOfBounds i s
  | Some t =>
      match is_ready t s with
      | Ok true s1 => switch_to i s1
      | Ok false s1 =>
          scan fuel (if i + 1 >=? num_tasks s1 then 0 else i + 1) s1
      | OutOfBounds j s1 => OutOfBounds j s1
      | OutOfFuel => OutOfFuel
      end
  end.
Proof.
  simpl. unfold bind, load, gets.
  destruct (task_at i s) as [t|]; [|reflexivity].
  destruct (is_ready t s) as [[|] s1| |]; reflexivity.
Qed.

Lemma scan_spec_unfold (fuel : nat) (i : Z) (s : sched) :
  scan_spec (S fuel) i s =
  match task_at i s with
  | None => OutOfBounds i s
  | Some t =>
      match is_ready t s with
      | Ok true s1 => select_spec i s1
      | Ok false s1 => scan_spec fuel ((i + 1) mod num_tasks s1) s1
      | OutOfBounds j s1 => OutOfBounds j s1
      | OutOfFuel => OutOfFuel
      end
  end.
Proof.
  simpl. unfold bind, load, gets.
  destruct (task_at i s) as [t|]; [|reflexivity].
  destruct (is_ready t s) as [[|] s1| |]; reflexivity.
Qed.

(** From a claimed slot on, the loop of [schedule_next] and the circular
    scan of the description are the same function. *)
Lemma scan_eq_spec (fuel : nat) :
  forall i s, 0 <= i < num_tasks s -> scan fuel i s = scan_spec fuel i s.
Proof.
  induction fuel as [|fuel IH]; intros i s Hi; [reflexivity|].
  rewrite scan_unfold, scan_spec_unfold.
  destruct (task_at i s) as [t|] eqn:Ht; [|reflexivity].
  destruct (is_ready t s) as [[|] s1| |] eqn:Hr; try reflexivity.
  - apply is_ready_true in Hr as [_ ->].
    rewrite (switch_to_Some i t), (select_spec_Some i t); auto.
  - apply is_ready_false in Hr as [_ Hs1].
    assert (Hn : num_tasks s1 = num_tasks s) by (destruct Hs1 as [-> | ->]; reflexivity).
    rewrite Hn.
    assert (Hnext : (if i + 1 >=? num_tasks s then 0 else i + 1)
                    = (i + 1) mod num_tasks s).
    { destruct (Z.geb_spec (i + 1) (num_tasks s)).
      - replace (i + 1) with (num_tasks s) by lia.
        rewrite Z.mod_same by lia. reflexivity.
      - rewrite Z.mod_small by lia. reflexivity. }
    rewrite Hnext. apply IH. rewrite Hn.
    apply Z.mod_pos_bound. lia.
Qed.

(** The first probe of [schedule_next] when the running task sits in the
    last slot of the table. *)
Lemma scan_past_table (fuel : nat) (s : sched) :
  scan (S fuel) MAX_TASKS s = OutOfBounds MAX_TASKS s.
Proof.
  rewrite scan_unfold, task_at_outside by (unfold MAX_TASKS; lia). reflexivity.
Qed.

Lemma schedule_next_eq_spec (fuel : nat) (s : sched) :
  sched_inv s -> current_task s + 1 < MAX_TASKS ->
  schedule_next (fuel + (if current_task s + 1 =? num_tasks s then 1 else 0)) s
  = schedule_next_spec fuel s.
Proof.
  intros [_ (Hc0 & Hcn & Hn) Hu _] Hlast.
  unfold schedule_next, schedule_next_spec, bind, gets.
  destruct (Z.eqb_spec (current_task s + 1) (num_tasks s)) as [He|He].
  - rewrite Nat.add_1_r, He, Z.mod_same by lia.
    rewrite scan_unfold, Hu by lia.
    rewrite is_ready_dead by reflexivity.
    destruct (Z.geb_spec (num_tasks s + 1) (num_tasks s)); [|lia].
    apply scan_eq_spec. lia.
  - rewrite Nat.add_0_r, Z.mod_small by lia.
    apply scan_eq_spec. lia.
Qed.

(** X15. In every reachable state the slots from [num_tasks] up to the end
    of the table are dead, so a scan that returns has picked a claimed slot;
    and when the running task does not sit in the last slot of the table,
    [schedule_next] gives the result of the scan that starts at
    [(current_task + 1) mod num_tasks] (one probe more when the first probe
    falls on slot [num_tasks]). *)
Theorem unborn_probe_harmless (clk inp : nat -> Z) (s : sched) :
  reachable clk inp s ->
  (forall i, num_tasks s <= i < MAX_TASKS ->
             exists t, task_at i s = Some t /\ is_alive t = 0) /\
  (forall fuel s', schedule_next fuel s = Ok tt s' ->
                   0 <= current_task s' < num_tasks s') /\
  (current_task s + 1 < MAX_TASKS ->
   forall fuel,
     schedule_next
       (fuel + (if current_task s + 1 =? num_tasks s then 1 else 0)) s
     = schedule_next_spec fuel s).
Proof.
  intros Hr. apply reachable_inv in Hr. split; [|split].
  - intros i Hi. exists zero_task. split; [|reflexivity].
    apply (inv_unborn _ Hr). exact Hi.
  - intros fuel s' H.
    apply scan_inv in H; [|apply sched_inv_table; exact Hr].
    destruct (inv_index _ H) as (? & ? & _). lia.
  - intros Hlast fuel. apply schedule_next_eq_spec; assumption.
Qed.

Lemma unborn_probe_harmless_witness :
  reachable clk0 keys0 (started clk0 keys0) /\
  schedule_next (3 + 1) (started clk0 keys0)
  = schedule_next_spec 3 (started clk0 keys0).
Proof.
  split; [apply reachable_started|].
  destruct (unborn_probe_harmless clk0 keys0 (started clk0 keys0))
    as (_ & _ & H).
  - apply reachable_started.
  - apply (H ltac:(reflexivity) 3%nat).
Defined.

(** C10, at the failing input.  With the table full and the task of
    slot 127 running, the scan of the description picks slot 0, while
    [schedule_next] never returns: its first probe is at index
    [current_task + 1 = 128], which is not reduced modulo [num_tasks], and
    reads [tasks[128]]. *)
Lemma unborn_probe_past_table :
  reachable clk0 keys0 (state_after reach_last_slot) /\
  (exists s', schedule_next_spec 1 (state_after reach_last_slot) = Ok tt s' /\
              current_task s' = 0) /\
  (forall fuel s', schedule_next fuel (state_after reach_last_slot) <> Ok tt s').
Proof.
  split; [apply reachable_last_slot|]. split.
  - eexists. split; vm_compute; reflexivity.
  - intros [|fuel] s'; [discriminate|].
    unfold schedule_next, bind, gets.
    change (current_task (state_after reach_last_slot) + 1) with MAX_TASKS.
    rewrite scan_past_table. discriminate.
Qed.

(** C1, at the failing input. When the running task sits in the last slot of
    the table, [schedule_next] starts at index [MAX_TASKS], not at
    [(current_task + 1) mod num_tasks]: it reads past the table. *)
Theorem schedule_next_from_last_slot (fuel : nat) (s : sched) :
  current_task s = MAX_TASKS - 1 ->
  schedule_next (S fuel) s = OutOfBounds MAX_TASKS s.
Proof.
  intros Hc. unfold schedule_next, bind, gets.
  replace (current_task s + 1) with MAX_TASKS by lia.
  apply scan_past_table.
Qed.

Lemma schedule_next_from_last_slot_witness :
  reachable clk0 keys0 (state_after reach_last_slot) /\
  num_tasks (state_after reach_last_slot) = MAX_TASKS /\
  current_task (state_after reach_last_slot) = MAX_TASKS - 1 /\
  schedule_next 128 (state_after reach_last_slot)
  = OutOfBounds MAX_TASKS (state_after reach_last_slot).
Proof.
  split; [apply reachable_last_slot|].
  split; [vm_compute; reflexivity|].
  split; [vm_compute; reflexivity|].
  apply (schedule_next_from_last_slot 127 (state_after reach_last_slot)).
  vm_compute. reflexivity.
Defined.

(** ** A task that is switched out *)

Section SwitchedOut.

(** The task of slot [c] has left the record [t] behind. *)
Variable c : Z.
Variable t : task_info.

Lemma scan_record (fuel : nat) (i : Z) (s s' : sched) :
  task_at c s = Some t -> scan fuel i s = Ok tt s' ->
  still_away c t s' \/ back_at c t s s'.
Proof.
  intros Hc H.
  apply scan_Ok in H as (j & tj & k & Hk & Hj & Ha & _ & Hwk & -> & _).
  pose proof (task_at_Some _ _ _ Hj) as [Hjr _].
  destruct (Z.eq_dec j c) as [->|Hne].
  - right. rewrite Hc in Hj. injection Hj as <-.
    split; [reflexivity|]. split; [|split; [exact Ha|]].
    + apply (task_at_selected_eq c (with_time_calls (S k) s) t). exact Hc.
    + exists k. simpl. split; [lia|exact Hwk].
  - left. split; [simpl; exact Hne|].
    rewrite task_at_selected_ne by lia. exact Hc.
Qed.

Lemma back_at_later (s0 s s' : sched) :
  clock s = clock s0 -> (time_calls s0 <= time_calls s)%nat ->
  back_at c t s s' -> back_at c t s0 s'.
Proof.
  intros Hclk Hle (H1 & H2 & H3 & k & Hk & Hw).
  split; [exact H1|]. split; [exact H2|]. split; [exact H3|].
  exists k. split; [lia|]. unfold now_at in *. rewrite <- Hclk. exact Hw.
Qed.

(** One call made by another task leaves the record of [c] alone, unless it
    ends by switching to [c]. *)
Lemma step_away_record (o : op) (s s' : sched) :
  current_task s <> c -> 0 <= c < num_tasks s -> task_at c s = Some t ->
  step o s = Ok tt s' ->
  still_away c t s' \/ back_at c t s s'.
Proof.
  intros Hcur Hc Ht H.
  destruct o as [fn|fuel h|fuel ms|fuel|fuel|fuel]; simpl in H.
  - left. unfold bind, ret in H. rewrite task_create_unfold in H. cbv zeta in H.
    destruct (task_at (num_tasks s) s) as [tn|]; [|discriminate].
    injection H as <-. split; [exact Hcur|].
    change (task_at c (put_task (num_tasks s) (mk_task 1 (wake_time tn) (-1)) s)
            = Some t).
    rewrite task_at_put_ne by lia. exact Ht.
  - rewrite task_wait_unfold in H.
    destruct (task_at (current_task s) s) as [tc|] eqn:Htc; [|discriminate].
    pose proof (task_at_Some _ _ _ Htc) as [Hr _].
    apply scan_record in H; [exact H|].
    rewrite task_at_put_ne by lia. exact Ht.
  - rewrite task_sleep_unfold in H.
    destruct (task_at (current_task s) s) as [tc|] eqn:Htc; [|discriminate].
    pose proof (task_at_Some _ _ _ Htc) as [Hr _].
    apply scan_record in H.
    + destruct H as [H|H]; [left; exact H|right].
      apply (back_at_later s) in H; [exact H|reflexivity|simpl; lia].
    + rewrite task_at_put_ne by (simpl; lia). exact Ht.
  - unfold bind, ret in H. rewrite readchar_poll_unfold in H. cbv zeta in H.
    destruct (keys s (getch_calls s) =? ERR).
    + destruct (scan _ _ _) as [[] s1| |] eqn:Hs; try discriminate.
      injection H as <-.
      apply scan_record in Hs; [exact Hs|exact Ht].
    + injection H as <-. left. split; [exact Hcur|exact Ht].
  - rewrite task_exit_unfold in H.
    destruct (task_at (current_task s) s) as [tc|] eqn:Htc; [|discriminate].
    pose proof (task_at_Some _ _ _ Htc) as [Hr _].
    apply scan_record in H; [exact H|].
    change (task_at c (put_task (current_task s) (set_is_alive 0 tc) s) = Some t).
    rewrite task_at_put_ne by lia. exact Ht.
  - apply scan_record in H; [exact H|exact Ht].
Qed.

Lemma run_away_back (ops : list op) (s : sched) :
  current_task s = c -> run_away c ops s = Ok tt s.
Proof.
  intros H. destruct ops as [|o ops]; [reflexivity|].
  simpl. unfold bind, gets. rewrite H, Z.eqb_refl. reflexivity.
Qed.

Lemma run_away_cons (o : op) (ops : list op) (s s' : sched) :
  current_task s <> c -> run_away c (o :: ops) s = Ok tt s' ->
  exists s1, step o s = Ok tt s1 /\ run_away c ops s1 = Ok tt s'.
Proof.
  intros Hne. simpl. unfold bind at 1, gets.
  destruct (Z.eqb_spec (current_task s) c); [contradiction|].
  unfold bind. destruct (step o s) as [[] s1| |]; try discriminate.
  eauto.
Qed.

(** However long the other tasks run, the record of a switched-out task is
    the one it left, and it is current again only after a scan has found its
    wake-up time reached. *)
Lemma run_away_record (ops : list op) :
  forall s s',
    current_task s <> c -> 0 <= c < num_tasks s -> task_at c s = Some t ->
    run_away c ops s = Ok tt s' ->
    clock s' = clock s /\ (time_calls s <= time_calls s')%nat /\
    (still_away c t s' \/ back_at c t s s').
Proof.
  induction ops as [|o ops IH]; intros s s' Hcur Hc Ht H.
  - injection H as <-. split; [reflexivity|]. split; [lia|].
    left. split; assumption.
  - apply run_away_cons in H as (s1 & H1 & H2); [|exact Hcur].
    pose proof (step_frame _ _ _ H1) as (Hclk & _ & Hn & Htc).
    destruct (step_away_record o s s1 Hcur Hc Ht H1) as [[Hcur1 Ht1]|Hback].
    + apply IH in H2 as (Hclk2 & Htc2 & Hres); [|exact Hcur1|lia|exact Ht1].
      split; [congruence|]. split; [lia|].
      destruct Hres as [Hres|Hres]; [left; exact Hres|right].
      eapply back_at_later; eauto.
    + pose proof Hback as (Hcur1 & _).
      rewrite run_away_back in H2 by exact Hcur1. injection H2 as <-.
      split; [exact Hclk|]. split; [exact Htc|]. right. exact Hback.
Qed.

End SwitchedOut.

(** ** Sleep *)

(** X14. Sleep away from the overflow.  In a reachable state, when
    [start + ms] fits in a [size_t], [task_sleep ms] called at clock value
    [start] stores [start + ms] as the caller's wake-up time and then runs
    [schedule_next]; when the call returns a [swapcontext] saving the caller
    has been issued; and, whatever the other tasks do, the caller's wake-up
    time stays [start + ms] and the caller is current again only after a
    later clock reading of at least [start + ms]. *)
Theorem task_sleep_wakes_no_earlier
    (clk inp : nat -> Z) (s : sched) (fuel : nat) (ms : Z) :
  reachable clk inp s ->
  0 <= ms ->
  now_at s (time_calls s) + ms < 2 ^ SIZE_BITS ->
  let c := current_task s in
  let wake := now_at s (time_calls s) + ms in
  exists t,
    task_at c s = Some t /\
    task_sleep fuel ms s
    = schedule_next fuel (put_task c (set_wake_time wake t) (tick s)) /\
    forall s1,
      task_sleep fuel ms s = Ok tt s1 ->
      calls s1 = calls s ++ [swapcontext (context c) (context (current_task s1))] /\
      forall ops s2,
        run_away c ops s1 = Ok tt s2 ->
        (exists t2, task_at c s2 = Some t2 /\ wake_time t2 = wake) /\
        (current_task s2 = c ->
         exists k, (time_calls s < k < time_calls s2)%nat /\ wake <= now_at s k).
Proof.
  intros Hr Hms Hfit c wake.
  apply reachable_inv in Hr.
  destruct (inv_runnable _ Hr) as (t & Ht & _).
  destruct (inv_index _ Hr) as (Hc0 & Hcn & _).
  exists t. split; [exact Ht|].
  assert (Heq : task_sleep fuel ms s
                = schedule_next fuel (put_task c (set_wake_time wake t) (tick s))).
  { rewrite task_sleep_unfold, Ht.
    unfold to_size_t. rewrite Z.mod_small; [reflexivity|].
    pose proof (now_at_range s (time_calls s)). lia. }
  split; [exact Heq|].
  intros s1 H1. rewrite Heq in H1.
  unfold schedule_next, bind, gets in H1.
  set (slept := put_task c (set_wake_time wake t) (tick s)) in *.
  assert (Hslept : task_at c slept = Some (set_wake_time wake t)).
  { apply (task_at_put_eq c (tick s) t). exact Ht. }
  pose proof (scan_frame _ _ _ _ H1) as (Hclk & _ & Hn & Htc & _ & j & Hj & Hcalls).
  split.
  { rewrite Hj. exact Hcalls. }
  intros ops s2 H2.
  destruct (scan_record c _ _ _ _ _ Hslept H1) as [[Hcur1 Ht1]|Hback].
  - assert (Hrange : 0 <= c < num_tasks s1) by (rewrite Hn; simpl; fold c; lia).
    destruct (run_away_record c _ ops s1 s2 Hcur1 Hrange Ht1 H2)
      as (Hclk2 & Htc2 & Hres).
    destruct Hres as [[Hcur2 Ht2]|(Hcur2 & Ht2 & _ & k & Hk & Hw)].
    + split; [eauto|]. intros; contradiction.
    + split; [eexists; split; [exact Ht2|reflexivity]|].
      intros _. exists k. simpl in Htc. split; [lia|].
      unfold now_at in *. rewrite Hclk in Hw. exact Hw.
  - pose proof Hback as (Hcur1 & Ht1 & _ & k & Hk & Hw).
    rewrite run_away_back in H2 by exact Hcur1. injection H2 as <-.
    split; [eexists; split; [exact Ht1|reflexivity]|].
    intros _. exists k. simpl in Hk. split; [lia|exact Hw].
Qed.

Lemma task_sleep_wakes_no_earlier_witness :
  reachable clk0 keys0 (started clk0 keys0) /\
  0 <= 0 /\
  now_at (started clk0 keys0) (time_calls (started clk0 keys0)) + 0 < 2 ^ SIZE_BITS /\
  exists t,
    task_sleep 2 0 (started clk0 keys0)
    = schedule_next 2 (put_task 0 (set_wake_time (1000 + 0) t)
                         (tick (started clk0 keys0))).
Proof.
  split; [apply reachable_started|]. split; [lia|]. split; [reflexivity|].
  destruct (task_sleep_wakes_no_earlier clk0 keys0 (started clk0 keys0) 2 0)
    as (t & _ & H & _).
  - apply reachable_started.
  - lia.
  - reflexivity.
  - exists t. exact H.
Defined.

(** C8, at the failing input.  [time_ms() + ms] is computed in [size_t]
    and wraps: with the clock at 1000, [task_sleep (2^64 - 1)] stores the
    wake-up time 999, and the caller is running again when the call returns,
    long before [1000 + (2^64 - 1)]. *)
Lemma task_sleep_wraps_around :
  exists s',
    task_sleep 2 (2 ^ SIZE_BITS - 1) (started clk0 keys0) = Ok tt s' /\
    current_task s' = 0 /\
    task_at 0 s' = Some (mk_task 1 999 (-1)) /\
    forall k, now_at s' k
              < now_at (started clk0 keys0) 0 + (2 ^ SIZE_BITS - 1).
Proof.
  eexists. split; [vm_compute; reflexivity|].
  split; [reflexivity|]. split; [reflexivity|].
  intros k. vm_compute. reflexivity.
Qed.

(** ** Blocking read *)

Lemma is_ready_runnable (t : task_info) (s : sched) :
  is_alive t <> 0 -> waiting_for t = -1 ->
  wake_time t <= now_at s (time_calls s) ->
  is_ready t s = Ok true (tick s).
Proof.
  intros Ha Hw Hk. apply is_ready_true. split; [|reflexivity].
  split; [exact Ha|]. split; [left; exact Hw|exact Hk].
Qed.

Lemma set_waiting_for_none (t : task_info) :
  waiting_for t = -1 -> set_waiting_for (-1) t = t.
Proof. destruct t as [a w f]. simpl. intros ->. reflexivity. Qed.

(** The wake-up time of the running task lies behind every clock reading
    still to come. *)
Lemma runnable_wake_time (s : sched) (t : task_info) (k : nat) :
  current_runnable s -> monotone_clock s ->
  task_at (current_task s) s = Some t -> (time_calls s <= k)%nat ->
  wake_time t <= now_at s k.
Proof.
  intros (t' & Ht' & _ & _ & Hwake) Hmono Ht Hk.
  rewrite Ht in Ht'. injection Ht' as <-.
  destruct Hwake as [->|(j & Hj & Hw)].
  - apply now_at_range.
  - etransitivity; [exact Hw|]. apply Hmono. lia.
Qed.

Lemma task_readchar_unfold
    (back : sched -> sched) (polls fuel : nat) (s : sched) :
  task_readchar back (S polls) fuel s =
  if keys s (getch_calls s) =? ERR then
    match schedule_next fuel (with_getch_calls (S (getch_calls s)) s) with
    | Ok _ s1 =>
        task_readchar back polls fuel
          (if current_task s1 =? current_task s then s1 else back s1)
    | OutOfBounds i s1 => OutOfBounds i s1
    | OutOfFuel => OutOfFuel
    end
  else Ok (keys s (getch_calls s)) (with_getch_calls (S (getch_calls s)) s).
Proof.
  simpl. unfold bind at 1 2, gets.
  rewrite readchar_poll_unfold. cbv zeta.
  destruct (keys s (getch_calls s) =? ERR); [|reflexivity].
  unfold schedule_next, bind, gets.
  change (current_task (with_getch_calls (S (getch_calls s)) s))
    with (current_task s).
  destruct (scan fuel (current_task s + 1) _) as [[] ?| |]; reflexivity.
Qed.

(** [task_readchar] never hands the no-data value to its caller. *)
Lemma task_readchar_data (back : sched -> sched) (fuel polls : nat) :
  forall s ch s', task_readchar back polls fuel s = Ok ch s' -> ch <> ERR.
Proof.
  induction polls as [|polls IH]; intros s ch s' H; [discriminate|].
  rewrite task_readchar_unfold in H.
  destruct (Z.eqb_spec (keys s (getch_calls s)) ERR) as [He|He].
  - destruct (schedule_next _ _) as [[] s1| |]; try discriminate.
    eapply IH; eauto.
  - injection H as <- _. exact He.
Qed.

(** It returns what the first poll with data has read. *)
Lemma task_readchar_first_data (back : sched -> sched) (fuel k : nat) :
  forall polls s sk,
    (k < polls)%nat ->
    poll_state back k fuel s = Some sk ->
    keys sk (getch_calls sk) <> ERR ->
    task_readchar back polls fuel s
    = Ok (keys sk (getch_calls sk)) (with_getch_calls (S (getch_calls sk)) sk).
Proof.
  induction k as [|k IH]; intros polls s sk Hk Hs Hdata.
  - injection Hs as <-. destruct polls as [|polls]; [lia|].
    rewrite task_readchar_unfold.
    destruct (Z.eqb_spec (keys s (getch_calls s)) ERR); [contradiction|].
    reflexivity.
  - destruct polls as [|polls]; [lia|].
    rewrite task_readchar_unfold. simpl in Hs.
    destruct (keys s (getch_calls s) =? ERR); [|discriminate].
    destruct (schedule_next _ _) as [[] s1| |]; try discriminate.
    apply IH; [lia|exact Hs|exact Hdata].
Qed.

(** C9. In a reachable state, with a clock that does not run backwards: a
    poll that finds no data makes [task_readchar] call [schedule_next] and
    nothing else; the caller's record is then the one it had, however long
    the other tasks run, and it satisfies [is_ready] whenever it is
    considered; [task_readchar] polls again each time it is resumed, and
    the first poll that finds data ends the call, which returns that
    character and never the no-data value. *)
Theorem task_readchar_busy_yield
    (clk inp : nat -> Z) (s : sched) (fuel : nat) :
  reachable clk inp s ->
  monotone_clock s ->
  let c := current_task s in
  let s0 := with_getch_calls (S (getch_calls s)) s in
  (keys s (getch_calls s) = ERR ->
   readchar_poll fuel s = (schedule_next fuel;; ret None) s0 /\
   exists t,
     task_at c s = Some t /\
     forall s1,
       readchar_poll fuel s = Ok None s1 ->
       calls s1 = calls s ++ [swapcontext (context c) (context (current_task s1))] /\
       forall ops s2,
         run_away c ops s1 = Ok tt s2 ->
         task_at c s2 = Some t /\ is_ready t s2 = Ok true (tick s2)) /\
  (forall back k polls sk,
     (k < polls)%nat ->
     poll_state back k fuel s = Some sk ->
     keys sk (getch_calls sk) <> ERR ->
     task_readchar back polls fuel s
     = Ok (keys sk (getch_calls sk)) (with_getch_calls (S (getch_calls sk)) sk)) /\
  (forall back polls ch s',
     task_readchar back polls fuel s = Ok ch s' -> ch <> ERR).
Proof.
  intros Hr Hmono c s0.
  apply reachable_inv in Hr.
  pose proof (inv_runnable _ Hr) as Hrun.
  destruct Hrun as (t & Ht & Ha & Hw & _).
  destruct (inv_index _ Hr) as (Hc0 & Hcn & _).
  split; [|split].
  - intros Hkey. split.
    { rewrite readchar_poll_unfold. cbv zeta. rewrite Hkey.
      unfold schedule_next, bind, gets, ret. simpl.
      destruct (scan _ _ _) as [[] ?| |]; reflexivity. }
    exists t. split; [exact Ht|].
    intros s1 H1. rewrite readchar_poll_unfold in H1. cbv zeta in H1.
    rewrite Hkey in H1. simpl in H1.
    destruct (scan fuel (current_task s + 1) (with_getch_calls (S (getch_calls s)) s))
      as [[] s1'| |] eqn:Hs; try discriminate.
    injection H1 as <-.
    pose proof (scan_frame _ _ _ _ Hs) as (Hclk & _ & Hn & Htc & _ & j & Hj & Hcalls).
    split; [rewrite Hj; exact Hcalls|].
    intros ops s2 H2.
    assert (Hready : forall s', clock s' = clock s ->
                                (time_calls s <= time_calls s')%nat ->
                                is_ready t s' = Ok true (tick s')).
    { intros s' Hclk' Hle. apply is_ready_runnable; auto.
      replace (now_at s' (time_calls s')) with (now_at s (time_calls s'))
        by (unfold now_at; rewrite Hclk'; reflexivity).
      apply runnable_wake_time; auto. apply (inv_runnable _ Hr). }
    simpl in Hclk, Htc.
    assert (Ht0 : task_at c s0 = Some t) by exact Ht.
    destruct (scan_record c t _ _ s0 _ Ht0 Hs) as [[Hcur1 Ht1]|Hback].
    + assert (Hrange : 0 <= c < num_tasks s1') by (rewrite Hn; simpl; fold c; lia).
      destruct (run_away_record c t ops s1' s2 Hcur1 Hrange Ht1 H2)
        as (Hclk2 & Htc2 & Hres).
      split.
      * destruct Hres as [[_ Ht2]|(_ & Ht2 & _)]; [exact Ht2|].
        rewrite set_waiting_for_none in Ht2 by exact Hw. exact Ht2.
      * apply Hready; [congruence|lia].
    + pose proof Hback as (Hcur1 & Ht1 & _).
      rewrite run_away_back in H2 by exact Hcur1. injection H2 as <-.
      rewrite set_waiting_for_none in Ht1 by exact Hw.
      split; [exact Ht1|]. apply Hready; [congruence|lia].
  - intros back k polls sk. apply task_readchar_first_data.
  - intros back polls. apply task_readchar_data.
Qed.

Lemma clk0_monotone (s : sched) : clock s = clk0 -> monotone_clock s.
Proof.
  intros H j k _. unfold now_at. rewrite H. reflexivity.
Qed.

Lemma task_readchar_busy_yield_witness :
  reachable clk0 keys0 (started clk0 keys0) /\
  monotone_clock (started clk0 keys0) /\
  readchar_poll 2 (started clk0 keys0)
  = (schedule_next 2;; ret None) (with_getch_calls 1 (started clk0 keys0)).
Proof.
  split; [apply reachable_started|].
  split; [apply clk0_monotone; reflexivity|].
  destruct (task_readchar_busy_yield clk0 keys0 (started clk0 keys0) 2)
    as (H & _).
  - apply reachable_started.
  - apply clk0_monotone. reflexivity.
  - destruct (H ltac:(reflexivity)) as (Heq & _). exact Heq.
Defined.

(** ** Wait *)

Lemma is_ready_fuel (t : task_info) (s : sched) : is_ready t s <> OutOfFuel.
Proof.
  rewrite is_ready_unfold.
  destruct (is_alive t =? 0); [discriminate|].
  destruct (waiting_for t =? -1); [discriminate|].
  destruct (task_at (waiting_for t) s) as [o|]; [|discriminate].
  destruct (is_alive o =? 0); discriminate.
Qed.

Lemma probes_before_nonneg (n c i : Z) : 0 <= c -> 0 <= probes_before n c i.
Proof.
  intros Hc. unfold probes_before. destruct (Z.leb_spec i c); lia.
Qed.

(** A scan that has fuel for the probes up to a slot that is ready, and
    stays ready, does not run out of fuel. *)
Lemma scan_reaches (c : Z) (t : task_info) (fuel : nat) :
  forall i s,
    0 <= c < num_tasks s -> task_at c s = Some t ->
    is_alive t <> 0 -> wait_over t s ->
    (forall k, (time_calls s <= k)%nat -> wake_time t <= now_at s k) ->
    0 <= i -> probes_before (num_tasks s) c i < Z.of_nat fuel ->
    scan fuel i s <> OutOfFuel.
Proof.
  induction fuel as [|fuel IH]; intros i s Hc Ht Ha Hwo Hwake Hi Hfuel.
  { pose proof (probes_before_nonneg (num_tasks s) c i). lia. }
  rewrite scan_unfold.
  destruct (task_at i s) as [ti|] eqn:Hti; [|discriminate].
  destruct (is_ready ti s) as [[|] s1| |] eqn:Hr.
  - apply is_ready_true in Hr as [_ ->].
    rewrite (switch_to_Some i ti) by exact Hti. discriminate.
  - apply is_ready_false in Hr as [Hnot Hs1].
    destruct (Z.eq_dec i c) as [->|Hne].
    { exfalso. apply Hnot. rewrite Ht in Hti. injection Hti as <-.
      split; [exact Ha|]. split; [exact Hwo|]. apply Hwake. lia. }
    assert (Hnext : 0 <= (if i + 1 >=? num_tasks s then 0 else i + 1) /\
                    probes_before (num_tasks s) c
                      (if i + 1 >=? num_tasks s then 0 else i + 1)
                    < Z.of_nat fuel).
    { unfold probes_before in *.
      destruct (Z.geb_spec (i + 1) (num_tasks s));
        destruct (Z.leb_spec i c);
        repeat match goal with
               | |- context [?a <=? ?b] => destruct (Z.leb_spec a b)
               end; lia. }
    destruct Hnext as [Hi' Hfuel'].
    destruct Hs1 as [-> | ->].
    + apply IH; auto.
    + apply IH; auto.
      intros k Hk. apply (Hwake k). simpl in Hk. lia.
  - discriminate.
  - exfalso. exact (is_ready_fuel _ _ Hr).
Qed.

(** C7 as stated fails: [MAX_TASKS] is the handle of no task, yet after
    [task_wait MAX_TASKS] the evaluation of the caller's readiness reads
    [tasks[MAX_TASKS]], and the call ends there. *)
Lemma task_wait_past_table_faults :
  reachable clk0 keys0 (started clk0 keys0) /\
  task_at MAX_TASKS (started clk0 keys0) = None /\
  exists s1,
    task_wait 2 MAX_TASKS (started clk0 keys0) = OutOfBounds MAX_TASKS s1 /\
    task_at (current_task s1) s1 = Some (mk_task 1 0 MAX_TASKS) /\
    is_ready (mk_task 1 0 MAX_TASKS) s1 = OutOfBounds MAX_TASKS s1.
Proof.
  split; [apply reachable_started|]. split; [reflexivity|].
  eexists. split; [vm_compute; reflexivity|].
  split; vm_compute; reflexivity.
Qed.

(** * Further properties of the code *)

(** ** Calls as a prologue followed by the scan *)

Lemma reachable_state_after (ops : list op) :
  run ops (started clk0 keys0) = Ok tt (state_after ops) ->
  reachable clk0 keys0 (state_after ops).
Proof.
  intros H. eapply reachable_run; [apply reachable_started|exact H].
Qed.

Lemma step_before_scan (o : op) (s pre : sched) :
  before_scan o s = Some pre ->
  step o s = scan (fuel_of o) (current_task s + 1) pre.
Proof.
  destruct o as [fn|fuel h|fuel ms|fuel|fuel|fuel]; simpl; cbv zeta.
  - discriminate.
  - rewrite task_wait_unfold.
    destruct (task_at (current_task s) s); [|discriminate].
    intros [= <-]. reflexivity.
  - rewrite task_sleep_unfold.
    destruct (task_at (current_task s) s); [|discriminate].
    intros [= <-]. reflexivity.
  - unfold bind, ret. rewrite readchar_poll_unfold. cbv zeta.
    destruct (keys s (getch_calls s) =? ERR); [|discriminate].
    intros [= <-].
    destruct (scan _ _ _) as [[] ?| |]; reflexivity.
  - rewrite task_exit_unfold.
    destruct (task_at (current_task s) s); [|discriminate].
    intros [= <-]. reflexivity.
  - intros [= <-]. reflexivity.
Qed.

(** A call that returns without entering the scan is a creation or a poll
    that found data; neither touches the record of a claimed slot. *)
Lemma step_without_scan (o : op) (s s' : sched) :
  before_scan o s = None -> step o s = Ok tt s' ->
  current_task s' = current_task s /\
  num_alive s' - num_alive s = num_tasks s' - num_tasks s /\
  ((exists fn t, o = Create fn /\ task_at (num_tasks s) s = Some t /\
                 num_tasks s' = num_tasks s + 1 /\
                 tasks s' = <[Z.to_nat (num_tasks s) := mk_task 1 (wake_time t) (-1)]> (tasks s) /\
                 calls s' = calls s ++
                   [getcontext (exit_context (num_tasks s));
                    malloc_stack (exit_context (num_tasks s)) STACK_SIZE;
                    makecontext (exit_context (num_tasks s)) entry_task_exit;
                    getcontext (context (num_tasks s));
                    malloc_stack (context (num_tasks s)) STACK_SIZE;
                    set_uc_link (context (num_tasks s)) (exit_context (num_tasks s));
                    makecontext (context (num_tasks s)) (entry_fn fn)]) \/
   (num_tasks s' = num_tasks s /\ tasks s' = tasks s /\ calls s' = calls s)).
Proof.
  destruct o as [fn|fuel h|fuel ms|fuel|fuel|fuel]; simpl; cbv zeta.
  - intros _. unfold bind, ret. rewrite task_create_unfold. cbv zeta.
    destruct (task_at (num_tasks s) s) as [t|] eqn:Ht; [|discriminate].
    intros [= <-]. simpl. split; [reflexivity|]. split; [lia|].
    left. exists fn, t. repeat split.
  - rewrite task_wait_unfold.
    destruct (task_at (current_task s) s); discriminate.
  - rewrite task_sleep_unfold.
    destruct (task_at (current_task s) s); discriminate.
  - unfold bind, ret. rewrite readchar_poll_unfold. cbv zeta.
    destruct (keys s (getch_calls s) =? ERR); [discriminate|].
    intros _ [= <-]. simpl. split; [reflexivity|]. split; [lia|].
    right. repeat split.
  - rewrite task_exit_unfold.
    destruct (task_at (current_task s) s); discriminate.
  - discriminate.
Qed.

(** ** What [schedule_next] does when it returns *)

(** X1. When [schedule_next] returns, the slot it made current held a
    record that was alive, whose wait was over, and whose wake-up time was
    reached by a clock reading taken during the call; that slot's
    [waiting_for] is now [-1]; every other record, [num_tasks] and
    [num_alive] are as before; and exactly one [swapcontext] was issued,
    from the previous current task to the new one. *)
Theorem schedule_next_selects (fuel : nat) (s s' : sched) :
  schedule_next fuel s = Ok tt s' ->
  let j := current_task s' in
  exists t k,
    task_at j s = Some t /\
    is_alive t <> 0 /\ wait_over t s /\
    (time_calls s <= k)%nat /\ wake_time t <= now_at s k /\
    time_calls s' = S k /\
    task_at j s' = Some (set_waiting_for (-1) t) /\
    (forall i, i <> j -> task_at i s' = task_at i s) /\
    num_tasks s' = num_tasks s /\ num_alive s' = num_alive s /\
    calls s' = calls s ++ [swapcontext (context (current_task s)) (context j)].
Proof.
  intros H. unfold schedule_next, bind, gets in H.
  apply scan_Ok in H as (j & t & k & Hk & Hj & Ha & Hw & Hwk & -> & _).
  pose proof (task_at_Some _ _ _ Hj) as [Hr _].
  exists t, k. cbn [current_task selected].
  split; [exact Hj|]. split; [exact Ha|]. split; [exact Hw|].
  split; [exact Hk|]. split; [exact Hwk|]. split; [reflexivity|].
  split; [exact (task_at_selected_eq j (with_time_calls (S k) s) t Hj)|].
  split; [|repeat split].
  intros i Hi. apply (task_at_selected_ne i j (with_time_calls (S k) s) t); lia.
Qed.

Lemma schedule_next_selects_witness :
  schedule_next 2 (started clk0 keys0) = Ok tt (state_after [Yield 2]) /\
  exists t, task_at (current_task (state_after [Yield 2])) (started clk0 keys0)
            = Some t /\ is_alive t <> 0.
Proof.
  assert (H : schedule_next 2 (started clk0 keys0) = Ok tt (state_after [Yield 2]))
    by (vm_compute; reflexivity).
  split; [exact H|].
  destruct (schedule_next_selects 2 (started clk0 keys0) (state_after [Yield 2]) H)
    as (t & k & H1 & H2 & _).
  exists t. split; [exact H1|exact H2].
Defined.

(** ** Runs that stay inside the table *)

Lemma task_at_put_cases (i j : Z) (u t : task_info) (s : sched) :
  task_at j (put_task i u s) = Some t -> t = u \/ task_at j s = Some t.
Proof.
  unfold task_at, put_task. destruct (in_table j); [|discriminate].
  simpl. intros H. apply list_lookup_insert_Some in H.
  destruct H as [(_ & -> & _)|(_ & H)]; auto.
Qed.

Lemma valid_handles_put (i : Z) (u : task_info) (s : sched) :
  valid_handles s -> valid_wait u -> valid_handles (put_task i u s).
Proof.
  intros Hv Hu j t Hj. apply task_at_put_cases in Hj as [->|Hj]; eauto.
Qed.

Lemma is_ready_no_fault (t : task_info) (s : sched) :
  length (tasks s) = Z.to_nat MAX_TASKS -> valid_wait t ->
  exists b, is_ready t s = Ok b s \/ is_ready t s = Ok b (tick s).
Proof.
  intros Hlen Hv. rewrite is_ready_unfold.
  destruct (is_alive t =? 0); [eauto|].
  destruct (Z.eqb_spec (waiting_for t) (-1)) as [Hw|Hw]; [eauto|].
  destruct Hv as [?|Hv]; [contradiction|].
  destruct (task_at_in_table _ s Hlen Hv) as [o ->].
  destruct (is_alive o =? 0); eauto.
Qed.

(** With handles inside the table, a scan that starts inside the table
    never leaves it. *)
Lemma scan_no_fault (fuel : nat) :
  forall i s,
    length (tasks s) = Z.to_nat MAX_TASKS -> valid_handles s ->
    num_tasks s <= MAX_TASKS -> 0 <= i < MAX_TASKS ->
    forall j s', scan fuel i s <> OutOfBounds j s'.
Proof.
  induction fuel as [|fuel IH]; intros i s Hlen Hv Hn Hi j s'; [discriminate|].
  rewrite scan_unfold.
  destruct (task_at_in_table i s Hlen Hi) as [t Ht]. rewrite Ht.
  destruct (is_ready_no_fault t s Hlen (Hv _ _ Ht)) as [[|] [-> | ->]].
  - rewrite (switch_to_Some i t) by exact Ht. discriminate.
  - rewrite (switch_to_Some i t) by exact Ht. discriminate.
  - apply IH; auto. destruct (Z.geb_spec (i + 1) (num_tasks s)); lia.
  - apply IH; auto. simpl.
    destruct (Z.geb_spec (i + 1) (num_tasks s)); lia.
Qed.

Lemma valid_handles_selected (j : Z) (t : task_info) (s : sched) :
  valid_handles s -> valid_handles (selected j t s).
Proof.
  intros Hv i u Hi.
  change (task_at i (put_task j (set_waiting_for (-1) t) s) = Some u) in Hi.
  apply task_at_put_cases in Hi as [->|Hi]; [left; reflexivity|eauto].
Qed.

Lemma before_scan_inv (o : op) (s pre : sched) :
  sched_inv s -> valid_handles s -> safe_op o ->
  before_scan o s = Some pre ->
  length (tasks pre) = Z.to_nat MAX_TASKS /\ valid_handles pre /\
  num_tasks pre = num_tasks s /\ current_task pre = current_task s.
Proof.
  intros Hinv Hv Hsafe.
  pose proof (inv_table _ Hinv) as Hlen.
  destruct o as [fn|fuel h|fuel ms|fuel|fuel|fuel]; simpl; cbv zeta.
  - discriminate.
  - destruct (task_at (current_task s) s) as [t|]; [|discriminate].
    intros [= <-]. simpl. rewrite length_insert.
    repeat split; auto. apply valid_handles_put; auto.
    unfold valid_wait. simpl. simpl in Hsafe. lia.
  - destruct (task_at (current_task s) s) as [t|] eqn:Ht; [|discriminate].
    intros [= <-]. simpl. rewrite length_insert.
    repeat split; auto.
    apply (valid_handles_put _ _ (tick s)); auto. exact (Hv _ _ Ht).
  - destruct (keys s (getch_calls s) =? ERR); [|discriminate].
    intros [= <-]. repeat split; auto.
  - destruct (task_at (current_task s) s) as [t|] eqn:Ht; [|discriminate].
    intros [= <-]. simpl. rewrite length_insert.
    repeat split; auto.
    apply (valid_handles_put _ _ (with_num_alive (num_alive s - 1) s)); auto.
    exact (Hv _ _ Ht).
  - intros [= <-]. repeat split; auto.
Qed.

Lemma before_scan_None (o : op) (s : sched) :
  sched_inv s -> before_scan o s = None ->
  (exists fn, o = Create fn) \/
  (exists fuel, o = Poll fuel /\ keys s (getch_calls s) <> ERR).
Proof.
  intros Hinv. destruct (inv_runnable _ Hinv) as (t & Ht & _).
  destruct o as [fn|fuel h|fuel ms|fuel|fuel|fuel]; simpl; cbv zeta;
    rewrite ?Ht; try discriminate; eauto.
  destruct (Z.eqb_spec (keys s (getch_calls s)) ERR); [discriminate|eauto].
Qed.

Lemma safe_step (o : op) (s : sched) :
  sched_inv s -> valid_handles s -> safe_op o -> num_tasks s < MAX_TASKS ->
  (forall i s', step o s <> OutOfBounds i s') /\
  (forall s', step o s = Ok tt s' ->
              valid_handles s' /\
              num_tasks s' = num_tasks s + creations [o]).
Proof.
  intros Hinv Hv Hsafe Hn.
  destruct (inv_index _ Hinv) as (Hc0 & Hcn & _).
  destruct (before_scan o s) as [pre|] eqn:Hb.
  - destruct (before_scan_inv o s pre Hinv Hv Hsafe Hb) as (Hlen & Hvp & Hnp & Hcp).
    rewrite (step_before_scan o s pre Hb). split.
    + apply scan_no_fault; auto; lia.
    + intros s' H.
      apply scan_Ok in H as (j & t & k & _ & _ & _ & _ & _ & -> & _).
      split; [apply valid_handles_selected; exact Hvp|].
      simpl. rewrite Hnp. destruct o; try discriminate; simpl; lia.
  - destruct (before_scan_None o s Hinv Hb) as [[fn ->]|(fuel & -> & Hkey)]; simpl.
    + unfold bind, ret. rewrite task_create_unfold. cbv zeta.
      rewrite (inv_unborn _ Hinv) by lia. split; [discriminate|].
      intros s' [= <-]. split; [|simpl; lia].
      apply (valid_handles_put (num_tasks s) _
               (with_num_alive (num_alive s + 1)
                  (with_num_tasks (num_tasks s + 1) s))); [exact Hv|].
      left. reflexivity.
    + unfold bind, ret. rewrite readchar_poll_unfold. cbv zeta.
      destruct (Z.eqb_spec (keys s (getch_calls s)) ERR); [contradiction|].
      split; [discriminate|]. intros s' [= <-]. split; [exact Hv|simpl; lia].
Qed.

Lemma creations_nonneg (ops : list op) : 0 <= creations ops.
Proof.
  induction ops as [|[] ops IH]; simpl; lia.
Qed.

(** X2. Memory safety under the callers' obligations.  From a state that
    satisfies the invariant and whose records wait on [-1] or on indices of
    the table, a run whose [task_wait] handles are [-1] or indices of the
    table, and which creates fewer tasks than would fill the table, never
    accesses [tasks] out of bounds. *)
Theorem safe_run_stays_in_table (ops : list op) :
  forall s,
    sched_inv s -> valid_handles s ->
    Forall safe_op ops ->
    num_tasks s + creations ops < MAX_TASKS ->
    forall i s', run ops s <> OutOfBounds i s'.
Proof.
  induction ops as [|o ops IH]; intros s Hinv Hv Hsafe Hn i s'; [discriminate|].
  inversion Hsafe as [|? ? Ho Hops]; subst.
  pose proof (creations_nonneg ops) as Hpos.
  assert (Hn1 : num_tasks s < MAX_TASKS).
  { simpl in Hn. destruct o; lia. }
  destruct (safe_step o s Hinv Hv Ho Hn1) as [Hnf Hok].
  simpl. unfold bind.
  destruct (step o s) as [[] s1|j s1|] eqn:Hs;
    [|exfalso; exact (Hnf j s1 eq_refl)|discriminate].
  destruct (Hok s1 eq_refl) as [Hv1 Hn'].
  apply IH; auto.
  - eapply step_inv; eauto.
  - simpl in Hn, Hn'. destruct o; lia.
Qed.

Lemma sched_inv_started (clk inp : nat -> Z) : sched_inv (started clk inp).
Proof. apply (reachable_inv clk inp). apply reachable_started. Qed.

Lemma valid_handles_started (clk inp : nat -> Z) :
  valid_handles (started clk inp).
Proof.
  intros i t Hi.
  change (task_at i (put_task 0 (mk_task 1 0 (-1)) (boot clk inp)) = Some t) in Hi.
  apply task_at_put_cases in Hi as [->|Hi]; [left; reflexivity|].
  pose proof (task_at_Some _ _ _ Hi) as [Hr _].
  rewrite task_at_boot in Hi by exact Hr. injection Hi as <-.
  right. unfold MAX_TASKS. simpl. lia.
Qed.

Lemma safe_run_stays_in_table_witness :
  sched_inv (started clk0 keys0) /\
  valid_handles (started clk0 keys0) /\
  Forall safe_op [Create 0; Wait 1 1; Yield 3; Exit 3] /\
  num_tasks (started clk0 keys0) + creations [Create 0; Wait 1 1; Yield 3; Exit 3]
  < MAX_TASKS /\
  forall i s',
    run [Create 0; Wait 1 1; Yield 3; Exit 3] (started clk0 keys0)
    <> OutOfBounds i s'.
Proof.
  assert (Hsafe : Forall safe_op [Create 0; Wait 1 1; Yield 3; Exit 3]).
  { repeat constructor. unfold MAX_TASKS. lia. }
  split; [apply sched_inv_started|].
  split; [apply valid_handles_started|].
  split; [exact Hsafe|].
  split; [reflexivity|].
  apply (safe_run_stays_in_table [Create 0; Wait 1 1; Yield 3; Exit 3]
           (started clk0 keys0)).
  - apply sched_inv_started.
  - apply valid_handles_started.
  - exact Hsafe.
  - reflexivity.
Defined.

(** ** Progress *)

(** X3. If some claimed slot is ready, the handles are inside the table, the
    table is not full and the clock does not run backwards, then
    [schedule_next] returns within [num_tasks + 1] probes. *)
Theorem schedule_next_progress (s : sched) :
  sched_inv s -> valid_handles s -> monotone_clock s ->
  num_tasks s < MAX_TASKS ->
  (exists j t, 0 <= j < num_tasks s /\ task_at j s = Some t /\ ready_now t s) ->
  exists s', schedule_next (S (Z.to_nat (num_tasks s))) s = Ok tt s'.
Proof.
  intros Hinv Hv Hmono Hn (j & t & Hj & Ht & Ha & Hw & Hk).
  destruct (inv_index _ Hinv) as (Hc0 & Hcn & _).
  unfold schedule_next, bind, gets.
  destruct (scan (S (Z.to_nat (num_tasks s))) (current_task s + 1) s)
    as [[] s'|i s'|] eqn:Hs.
  - eauto.
  - exfalso. revert Hs. apply scan_no_fault; auto; try lia.
    apply (inv_table _ Hinv).
  - exfalso. revert Hs. apply (scan_reaches j t); auto; try lia.
    + intros k Hle. etransitivity; [exact Hk|]. apply Hmono. exact Hle.
    + unfold probes_before.
      destruct (Z.leb_spec (current_task s + 1) j); lia.
Qed.

Lemma schedule_next_progress_witness :
  sched_inv (started clk0 keys0) /\
  valid_handles (started clk0 keys0) /\
  monotone_clock (started clk0 keys0) /\
  num_tasks (started clk0 keys0) < MAX_TASKS /\
  (exists j t, 0 <= j < num_tasks (started clk0 keys0) /\
               task_at j (started clk0 keys0) = Some t /\
               ready_now t (started clk0 keys0)) /\
  exists s', schedule_next 2 (started clk0 keys0) = Ok tt s'.
Proof.
  assert (Hready : exists j t, 0 <= j < num_tasks (started clk0 keys0) /\
                               task_at j (started clk0 keys0) = Some t /\
                               ready_now t (started clk0 keys0)).
  { exists 0, (mk_task 1 0 (-1)). split; [simpl; lia|]. split; [reflexivity|].
    split; [simpl; lia|]. split; [left; reflexivity|].
    apply now_at_range. }
  split; [apply sched_inv_started|].
  split; [apply valid_handles_started|].
  split; [apply clk0_monotone; reflexivity|].
  split; [reflexivity|].
  split; [exact Hready|].
  apply (schedule_next_progress (started clk0 keys0)).
  - apply sched_inv_started.
  - apply valid_handles_started.
  - apply clk0_monotone. reflexivity.
  - reflexivity.
  - exact Hready.
Defined.

(** ** Round robin *)

Lemma all_runnable_selected (j : Z) (t : task_info) (s : sched) :
  all_runnable s -> task_at j s = Some t ->
  all_runnable (selected j t (tick s)).
Proof.
  intros Hall Hj i Hi. simpl in Hi.
  pose proof (task_at_Some _ _ _ Hj) as [Hr _].
  destruct (Hall i Hi) as (ti & Hti & Ha & Hw & Hk).
  destruct (Z.eq_dec j i) as [->|Hne].
  - rewrite Hj in Hti. injection Hti as <-.
    exists (set_waiting_for (-1) t). split; [|split; [exact Ha|split; [reflexivity|]]].
    + exact (task_at_selected_eq i (tick s) t Hj).
    + intros k Hle. simpl in Hle. apply (Hk k). lia.
  - exists ti. split; [|split; [exact Ha|split; [exact Hw|]]].
    + rewrite task_at_selected_ne by lia. exact Hti.
    + intros k Hle. simpl in Hle. apply (Hk k). lia.
Qed.

(** With every claimed slot runnable, one yield moves on to the next slot,
    around the end of the claimed part of the table. *)
Lemma yield_next (s : sched) :
  sched_inv s -> all_runnable s -> num_tasks s < MAX_TASKS ->
  exists s',
    schedule_next 2 s = Ok tt s' /\
    current_task s' = (current_task s + 1) mod num_tasks s /\
    sched_inv s' /\ all_runnable s' /\ num_tasks s' = num_tasks s.
Proof.
  intros Hinv Hall Hn.
  destruct (inv_index _ Hinv) as (Hc0 & Hcn & _).
  pose proof (sched_inv_table _ Hinv) as Htab.
  assert (Hpick : forall j t, task_at j s = Some t -> is_alive t <> 0 ->
                    waiting_for t = -1 ->
                    (forall k, (time_calls s <= k)%nat -> wake_time t <= now_at s k) ->
                    forall fuel, scan (S fuel) j s = Ok tt (selected j t (tick s))).
  { intros j t Hj Ha Hw Hk fuel. rewrite scan_unfold, Hj.
    rewrite is_ready_runnable by (auto; apply Hk; lia).
    apply switch_to_Some. exact Hj. }
  unfold schedule_next, bind, gets.
  destruct (Z.eq_dec (current_task s + 1) (num_tasks s)) as [He|He].
  - destruct (Hall 0 ltac:(lia)) as (t & Ht & Ha & Hw & Hk).
    exists (selected 0 t (tick s)).
    split; [|split; [|split; [|split]]].
    + rewrite scan_unfold, He, (inv_unborn _ Hinv) by lia.
      rewrite is_ready_dead by reflexivity.
      destruct (Z.geb_spec (num_tasks s + 1) (num_tasks s)); [|lia].
      apply Hpick; auto.
    + rewrite He, Z.mod_same by lia. reflexivity.
    + apply (selected_inv 0 t (time_calls s) s); auto.
    + apply all_runnable_selected; auto.
    + reflexivity.
  - destruct (Hall (current_task s + 1) ltac:(lia)) as (t & Ht & Ha & Hw & Hk).
    exists (selected (current_task s + 1) t (tick s)).
    split; [|split; [|split; [|split]]].
    + apply Hpick; auto.
    + cbn [current_task selected]. rewrite Z.mod_small by lia. reflexivity.
    + apply (selected_inv (current_task s + 1) t (time_calls s) s); auto.
    + apply all_runnable_selected; auto.
    + reflexivity.
Qed.

(** X4. Round robin.  When every claimed slot is alive, waits for nobody
    and is past its wake-up time, and the table is not full, [k] successive
    yields all return and leave task [(current_task + k) mod num_tasks]
    running: the tasks run in increasing circular order. *)
Theorem yields_round_robin (k : nat) :
  forall s,
    sched_inv s -> all_runnable s -> num_tasks s < MAX_TASKS ->
    exists s',
      run (replicate k (Yield 2)) s = Ok tt s' /\
      current_task s' = (current_task s + Z.of_nat k) mod num_tasks s.
Proof.
  induction k as [|k IH]; intros s Hinv Hall Hn.
  - destruct (inv_index _ Hinv) as (Hc0 & Hcn & _).
    exists s. split; [reflexivity|].
    rewrite Z.add_0_r, Z.mod_small by lia. reflexivity.
  - destruct (yield_next s Hinv Hall Hn) as (s1 & H1 & Hc1 & Hinv1 & Hall1 & Hn1).
    destruct (IH s1 Hinv1 Hall1 ltac:(lia)) as (s' & Hrun & Hc').
    exists s'. split.
    + simpl. unfold bind. rewrite H1. exact Hrun.
    + rewrite Hc', Hc1, Hn1, Zplus_mod_idemp_l.
      f_equal. lia.
Qed.

Lemma run_two_creations :
  run [Create 0; Create 1] (started clk0 keys0)
  = Ok tt (state_after [Create 0; Create 1]).
Proof. vm_compute. reflexivity. Qed.

Lemma sched_inv_three_tasks : sched_inv (state_after [Create 0; Create 1]).
Proof.
  apply (reachable_inv clk0 keys0).
  eapply reachable_run; [apply reachable_started|apply run_two_creations].
Qed.

Lemma all_runnable_three_tasks : all_runnable (state_after [Create 0; Create 1]).
Proof.
  intros i Hi. change (num_tasks (state_after [Create 0; Create 1])) with 3 in Hi.
  exists (mk_task 1 0 (-1)). split; [|split; [simpl; lia|split; [reflexivity|]]].
  - assert (i = 0 \/ i = 1 \/ i = 2) as [->|[->| ->]] by lia;
      vm_compute; reflexivity.
  - intros k _. apply now_at_range.
Qed.

Lemma yields_round_robin_witness :
  sched_inv (state_after [Create 0; Create 1]) /\
  all_runnable (state_after [Create 0; Create 1]) /\
  num_tasks (state_after [Create 0; Create 1]) < MAX_TASKS /\
  exists s', run (replicate 4 (Yield 2)) (state_after [Create 0; Create 1])
             = Ok tt s' /\
             current_task s' = 1.
Proof.
  split; [apply sched_inv_three_tasks|].
  split; [apply all_runnable_three_tasks|].
  split; [reflexivity|].
  destruct (yields_round_robin 4 (state_after [Create 0; Create 1]))
    as (s' & H1 & H2).
  - apply sched_inv_three_tasks.
  - apply all_runnable_three_tasks.
  - reflexivity.
  - exists s'. split; [exact H1|]. rewrite H2. reflexivity.
Defined.

(** ** The counter of live tasks *)

Lemma alive_count_insert (l : list task_info) :
  forall (i : nat) (x y : task_info),
    l !! i = Some x ->
    alive_count (<[i := y]> l)
    = alive_count l - (if is_alive x =? 0 then 0 else 1)
      + (if is_alive y =? 0 then 0 else 1).
Proof.
  induction l as [|t l IH]; intros i x y H; [discriminate|].
  destruct i as [|i]; simpl in *.
  - injection H as <-. lia.
  - rewrite (IH i x y H). lia.
Qed.

Lemma alive_count_replicate (n : nat) :
  alive_count (replicate n zero_task) = 0.
Proof. induction n as [|n IH]; simpl; [reflexivity|exact IH]. Qed.

Lemma alive_count_put (i : Z) (x y : task_info) (s : sched) :
  task_at i s = Some x ->
  alive_count (tasks (put_task i y s))
  = alive_count (tasks s) - (if is_alive x =? 0 then 0 else 1)
    + (if is_alive y =? 0 then 0 else 1).
Proof.
  intros H. apply task_at_Some in H as [_ H].
  apply alive_count_insert. exact H.
Qed.

Lemma num_alive_before_scan (o : op) (s pre : sched) :
  sched_inv s -> num_alive s = alive_count (tasks s) ->
  before_scan o s = Some pre ->
  num_alive pre = alive_count (tasks pre).
Proof.
  intros Hinv Hcount.
  destruct (inv_runnable _ Hinv) as (t & Ht & Ha & _).
  apply Z.eqb_neq in Ha.
  destruct o as [fn|fuel h|fuel ms|fuel|fuel|fuel]; simpl; cbv zeta;
    rewrite ?Ht; try discriminate.
  - intros [= <-]. rewrite (alive_count_put _ t) by exact Ht.
    simpl. rewrite Ha. lia.
  - intros [= <-].
    rewrite (alive_count_put _ t _ (tick s)) by exact Ht.
    simpl. rewrite Ha. lia.
  - destruct (keys s (getch_calls s) =? ERR); [|discriminate].
    intros [= <-]. exact Hcount.
  - intros [= <-].
    change (num_alive s - 1
            = alive_count (tasks (put_task (current_task s) (set_is_alive 0 t) s))).
    rewrite (alive_count_put _ t) by exact Ht.
    simpl. rewrite Ha. lia.
  - intros [= <-]. exact Hcount.
Qed.

Lemma num_alive_step (o : op) (s s' : sched) :
  sched_inv s -> num_alive s = alive_count (tasks s) ->
  step o s = Ok tt s' ->
  num_alive s' = alive_count (tasks s').
Proof.
  intros Hinv Hcount H.
  destruct (before_scan o s) as [pre|] eqn:Hb.
  - pose proof (num_alive_before_scan o s pre Hinv Hcount Hb) as Hpre.
    rewrite (step_before_scan o s pre Hb) in H.
    apply scan_Ok in H as (j & t & k & _ & Hj & _ & _ & _ & -> & _).
    change (num_alive pre
            = alive_count (tasks (put_task j (set_waiting_for (-1) t) pre))).
    rewrite (alive_count_put _ t) by exact Hj. simpl. lia.
  - destruct (step_without_scan o s s' Hb H) as (_ & Hdiff & Hcase).
    destruct Hcase as [(fn & t & _ & Ht & Hn & Htasks & _)|(Hn & Htasks & _)].
    + destruct (inv_index _ Hinv) as (Hc0 & Hcn & _).
      pose proof (task_at_Some _ _ _ Ht) as [Hr _].
      rewrite (inv_unborn _ Hinv) in Ht by lia. injection Ht as <-.
      rewrite Htasks.
      rewrite (alive_count_insert _ _ zero_task).
      * simpl. lia.
      * pose proof (inv_unborn _ Hinv (num_tasks s) ltac:(lia)) as Hz.
        apply task_at_Some in Hz as [_ Hz]. exact Hz.
    + rewrite Htasks. lia.
Qed.

(** X5. In every reachable state [num_alive] is the number of records of
    the table whose [is_alive] flag is set. *)
Theorem num_alive_counts (clk inp : nat -> Z) (s : sched) :
  reachable clk inp s -> num_alive s = alive_count (tasks s).
Proof.
  induction 1 as [s H|o s s' Hr IH H].
  - rewrite scheduler_init_boot in H. injection H as <-.
    unfold started. cbn [num_alive tasks].
    rewrite (alive_count_insert _ _ zero_task).
    + rewrite alive_count_replicate. reflexivity.
    + apply lookup_replicate_2. unfold MAX_TASKS. lia.
  - eapply num_alive_step; eauto. eapply reachable_inv; eauto.
Qed.

Lemma num_alive_counts_witness :
  reachable clk0 keys0 (state_after [Create 0; Wait 1 1; Exit 3]) /\
  num_alive (state_after [Create 0; Wait 1 1; Exit 3]) = 1 /\
  alive_count (tasks (state_after [Create 0; Wait 1 1; Exit 3])) = 1.
Proof.
  assert (Hr : reachable clk0 keys0 (state_after [Create 0; Wait 1 1; Exit 3])).
  { apply reachable_state_after. vm_compute. reflexivity. }
  split; [exact Hr|]. split; [reflexivity|].
  rewrite <- (num_alive_counts clk0 keys0 _ Hr). reflexivity.
Defined.

(** ** Stacks *)

Lemma frees_app (c : ctx_ref) (l1 l2 : list call) :
  frees c (l1 ++ l2) = frees c l1 + frees c l2.
Proof.
  induction l1 as [|[] l1 IH]; simpl; lia.
Qed.

Lemma mallocs_app (c : ctx_ref) (l1 l2 : list call) :
  mallocs c (l1 ++ l2) = mallocs c l1 + mallocs c l2.
Proof.
  induction l1 as [|[] l1 IH]; simpl; lia.
Qed.

(** The accounting only looks at the flags, [num_tasks] and the log. *)
Lemma stacks_accounted_ext (s s' : sched) :
  num_tasks s' = num_tasks s ->
  (forall c, mallocs c (calls s') = mallocs c (calls s)) ->
  (forall c, frees c (calls s') = frees c (calls s)) ->
  (forall i t', task_at i s' = Some t' ->
                exists t, task_at i s = Some t /\ is_alive t' = is_alive t) ->
  stacks_accounted s -> stacks_accounted s'.
Proof.
  intros Hn Hm Hf Hrec Hacc i t' Hi.
  destruct (Hrec i t' Hi) as (t & Ht & Ha).
  rewrite !Hm, !Hf, Hn, Ha. exact (Hacc i t Ht).
Qed.

Lemma task_at_put_alive (j i : Z) (x u t' : task_info) (s : sched) :
  task_at j s = Some x -> is_alive u = is_alive x ->
  task_at i (put_task j u s) = Some t' ->
  exists t, task_at i s = Some t /\ is_alive t' = is_alive t.
Proof.
  intros Hj Hu Hi.
  pose proof (task_at_Some _ _ _ Hj) as [Hr _].
  destruct (Z.eq_dec j i) as [<-|Hne].
  - rewrite (task_at_put_eq j s x u Hj) in Hi. injection Hi as <-. eauto.
  - rewrite task_at_put_ne in Hi by lia. eauto.
Qed.

Lemma stacks_before_scan (o : op) (s pre : sched) :
  sched_inv s -> stacks_accounted s ->
  before_scan o s = Some pre -> stacks_accounted pre.
Proof.
  intros Hinv Hacc.
  destruct (inv_runnable _ Hinv) as (t & Ht & Ha & _).
  destruct (inv_index _ Hinv) as (Hc0 & Hcn & _).
  destruct o as [fn|fuel h|fuel ms|fuel|fuel|fuel]; simpl; cbv zeta;
    rewrite ?Ht; try discriminate.
  - intros [= <-]. apply (stacks_accounted_ext s); auto.
    intros i t'. apply (task_at_put_alive _ _ t); auto.
  - intros [= <-]. apply (stacks_accounted_ext s); auto.
    intros i t'. apply (task_at_put_alive _ _ t _ _ (tick s)); auto.
  - destruct (keys s (getch_calls s) =? ERR); [|discriminate].
    intros [= <-]. exact Hacc.
  - intros [= <-] i t' Hi.
    change (task_at i (put_task (current_task s) (set_is_alive 0 t) s) = Some t')
      in Hi.
    cbn [calls num_tasks with_calls put_task with_tasks with_num_alive].
    rewrite !mallocs_app, !frees_app. simpl.
    destruct (Z.eq_dec (current_task s) i) as [<-|Hne].
    + rewrite (task_at_put_eq _ s t _ Ht) in Hi. injection Hi as <-.
      destruct (Hacc _ _ Ht) as (Hm1 & Hm2 & Hf1 & Hf2).
      rewrite Hm1, Hm2, Hf2, Hf1, Hm1. simpl.
      rewrite Z.eqb_refl.
      apply Z.eqb_neq in Ha. rewrite Ha. simpl.
      destruct (Z.ltb_spec (current_task s) (num_tasks s)); [|lia].
      repeat split; lia.
    + rewrite task_at_put_ne in Hi by lia.
      destruct (Hacc _ _ Hi) as (Hm1 & Hm2 & Hf1 & Hf2).
      apply Z.eqb_neq in Hne. rewrite Z.eqb_sym in Hne. rewrite Hne.
      rewrite Hm1, Hm2, Hf2, Hf1, Hm1. repeat split; lia.
  - intros [= <-]. exact Hacc.
Qed.

Lemma stacks_step (o : op) (s s' : sched) :
  sched_inv s -> stacks_accounted s -> step o s = Ok tt s' ->
  stacks_accounted s'.
Proof.
  intros Hinv Hacc H.
  destruct (before_scan o s) as [pre|] eqn:Hb.
  - pose proof (stacks_before_scan o s pre Hinv Hacc Hb) as Hpre.
    rewrite (step_before_scan o s pre Hb) in H.
    apply scan_Ok in H as (j & t & k & _ & Hj & _ & _ & _ & -> & _).
    apply (stacks_accounted_ext pre); auto.
    + intros c. simpl. rewrite mallocs_app. simpl. lia.
    + intros c. simpl. rewrite frees_app. simpl. lia.
    + intros i t'.
      apply (task_at_put_alive j i t (set_waiting_for (-1) t) t' pre); auto.
  - destruct (step_without_scan o s s' Hb H) as (_ & _ & Hcase).
    destruct Hcase as [(fn & t & _ & Ht & Hn & Htasks & Hcalls)|(Hn & Htasks & Hcalls)].
    + destruct (inv_index _ Hinv) as (Hc0 & Hcn & _).
      pose proof (task_at_Some _ _ _ Ht) as [Hr _].
      intros i t' Hi.
      assert (Hi' : task_at i (put_task (num_tasks s) (mk_task 1 (wake_time t) (-1)) s)
                    = Some t').
      { unfold task_at in *. simpl. rewrite <- Htasks. exact Hi. }
      rewrite Hcalls, Hn, !mallocs_app, !frees_app. simpl.
      destruct (Z.eq_dec (num_tasks s) i) as [<-|Hne].
      * rewrite (task_at_put_eq _ s t _ Ht) in Hi'. injection Hi' as <-.
        destruct (Hacc _ _ Ht) as (Hm1 & Hm2 & Hf1 & Hf2).
        rewrite Hm1, Hm2, Hf2, Hf1, Hm1. simpl.
        rewrite Z.eqb_refl, Z.ltb_irrefl, andb_false_r.
        destruct (Z.leb_spec 1 (num_tasks s)); [|lia].
        destruct (Z.ltb_spec (num_tasks s) (num_tasks s + 1)); [|lia].
        rewrite ?andb_false_r. simpl. repeat split; lia.
      * rewrite task_at_put_ne in Hi' by lia.
        destruct (Hacc _ _ Hi') as (Hm1 & Hm2 & Hf1 & Hf2).
        apply Z.eqb_neq in Hne as Hne'. rewrite Z.eqb_sym in Hne'. rewrite Hne'.
        rewrite Hm1, Hm2, Hf2, Hf1, Hm1.
        assert (Hlt : (i <? num_tasks s + 1) = (i <? num_tasks s)).
        { destruct (Z.ltb_spec i (num_tasks s + 1));
            destruct (Z.ltb_spec i (num_tasks s)); lia. }
        rewrite Hlt. repeat split; lia.
    + apply (stacks_accounted_ext s); auto; try (intros; congruence).
      intros i t' Hi. exists t'. split; [|reflexivity].
      unfold task_at in *. rewrite <- Htasks. exact Hi.
Qed.

(** X6. In every reachable state, for every slot of the table: the stacks
    of its two contexts were allocated once each if the slot was claimed by
    [task_create], and never otherwise; they were freed once each if the slot
    is claimed and its task dead, and never otherwise.  So no stack is freed
    twice, none is freed while its task is alive, and the stacks of a dead
    task have been freed. *)
Theorem reachable_stacks_accounted (clk inp : nat -> Z) (s : sched) :
  reachable clk inp s -> stacks_accounted s.
Proof.
  induction 1 as [s H|o s s' Hr IH H].
  - rewrite scheduler_init_boot in H. injection H as <-.
    intros i t Hi. unfold started. cbn [calls num_tasks]. simpl.
    assert (Ha : i = 0 \/ (is_alive t = 0 /\ 1 <= i)).
    { change (task_at i (put_task 0 (mk_task 1 0 (-1)) (boot clk inp)) = Some t)
        in Hi.
      pose proof (task_at_Some _ _ _ Hi) as [Hr _].
      destruct (Z.eq_dec i 0) as [->|Hne]; [left; reflexivity|right].
      rewrite task_at_put_ne in Hi by lia.
      rewrite task_at_boot in Hi by lia. injection Hi as <-.
      split; [reflexivity|lia]. }
    destruct (Z.leb_spec 1 i); destruct (Z.ltb_spec i 1); simpl;
      destruct (Z.eqb_spec (is_alive t) 0); simpl; repeat split; try lia.
    destruct Ha as [->|[? ?]]; [|lia].
    change (task_at 0 (put_task 0 (mk_task 1 0 (-1)) (boot clk inp)) = Some t)
      in Hi.
    rewrite (task_at_put_eq 0 (boot clk inp) zero_task) in Hi.
    + injection Hi as <-. simpl in *. lia.
    + apply task_at_boot. unfold MAX_TASKS. lia.
  - eapply stacks_step; eauto. eapply reachable_inv; eauto.
Qed.

Lemma reachable_stacks_accounted_witness :
  reachable clk0 keys0 (state_after [Create 0; Wait 1 1; Exit 3]) /\
  mallocs (context 1) (calls (state_after [Create 0; Wait 1 1; Exit 3])) = 1 /\
  frees (context 1) (calls (state_after [Create 0; Wait 1 1; Exit 3])) = 1 /\
  frees (context 0) (calls (state_after [Create 0; Wait 1 1; Exit 3])) = 0.
Proof.
  assert (Hr : reachable clk0 keys0 (state_after [Create 0; Wait 1 1; Exit 3])).
  { apply reachable_state_after. vm_compute. reflexivity. }
  split; [exact Hr|].
  pose proof (reachable_stacks_accounted clk0 keys0 _ Hr) as Hacc.
  destruct (Hacc 1 (mk_task 0 0 (-1)) ltac:(reflexivity)) as (Hm & _ & Hf & _).
  destruct (Hacc 0 (mk_task 1 0 (-1)) ltac:(reflexivity)) as (_ & _ & Hf0 & _).
  split; [exact Hm|]. split; [exact Hf|exact Hf0].
Defined.

(** ** Exit *)

(** A dead task's record is never written again. *)
Lemma dead_step (c : Z) (t : task_info) (o : op) (s s' : sched) :
  sched_inv s -> 0 <= c < num_tasks s ->
  task_at c s = Some t -> is_alive t = 0 ->
  step o s = Ok tt s' ->
  task_at c s' = Some t /\ 0 <= c < num_tasks s'.
Proof.
  intros Hinv Hc Ht Hd H.
  destruct (inv_runnable _ Hinv) as (tc & Htc & Ha & _).
  assert (Hcur : current_task s <> c).
  { intros He. rewrite He, Ht in Htc. injection Htc as <-. contradiction. }
  pose proof (step_frame _ _ _ H) as (_ & _ & Hn & _).
  split; [|lia].
  destruct (step_away_record c t o s s' Hcur Hc Ht H) as [[_ H1]|(_ & _ & Hal & _)].
  - exact H1.
  - contradiction.
Qed.

Lemma dead_run (c : Z) (t : task_info) (ops : list op) :
  forall s s',
    sched_inv s -> 0 <= c < num_tasks s ->
    task_at c s = Some t -> is_alive t = 0 ->
    run ops s = Ok tt s' ->
    task_at c s' = Some t /\ current_task s' <> c.
Proof.
  induction ops as [|o ops IH]; intros s s' Hinv Hc Ht Hd H.
  - injection H as <-. split; [exact Ht|].
    destruct (inv_runnable _ Hinv) as (tc & Htc & Ha & _).
    intros He. rewrite He, Ht in Htc. injection Htc as <-. contradiction.
  - apply run_cons in H as (s1 & H1 & H2).
    destruct (dead_step c t o s s1 Hinv Hc Ht Hd H1) as [Ht1 Hc1].
    apply (IH s1 s'); auto. eapply step_inv; eauto.
Qed.

(** X7. Exit is final.  When [task_exit] returns in a reachable state,
    another task is running; and in every later state the exited task's
    record is the one [task_exit] left, dead, and that task is never the
    current task again: a dead slot is neither rescheduled nor reused. *)
Theorem task_exit_is_final
    (clk inp : nat -> Z) (s s1 : sched) (fuel : nat) :
  reachable clk inp s ->
  task_exit fuel s = Ok tt s1 ->
  let c := current_task s in
  current_task s1 <> c /\
  exists t,
    task_at c s = Some t /\
    forall ops s2,
      run ops s1 = Ok tt s2 ->
      task_at c s2 = Some (set_is_alive 0 t) /\ current_task s2 <> c.
Proof.
  intros Hr H c.
  assert (Hr1 : reachable clk inp s1).
  { apply (reachable_step clk inp (Exit fuel) s s1 Hr). exact H. }
  pose proof (reachable_inv _ _ _ Hr) as Hinv.
  pose proof (reachable_inv _ _ _ Hr1) as Hinv1.
  destruct (inv_index _ Hinv) as (Hc0 & Hcn & _).
  rewrite task_exit_unfold in H. fold c in H.
  destruct (task_at c s) as [t|] eqn:Ht; [|discriminate].
  pose proof (scan_frame _ _ _ _ H) as (_ & _ & Hn & _).
  apply (scan_record c (set_is_alive 0 t)) in H.
  2:{ apply (task_at_put_eq c (with_num_alive (num_alive s - 1) s) t). exact Ht. }
  destruct H as [[Hcur1 Ht1]|(_ & _ & Hal & _)]; [|simpl in Hal; lia].
  split; [exact Hcur1|].
  exists t. split; [reflexivity|].
  intros ops s2 Hrun.
  apply (dead_run c (set_is_alive 0 t) ops s1 s2); auto.
  rewrite Hn. simpl. unfold c. lia.
Qed.

Lemma task_exit_is_final_witness :
  reachable clk0 keys0 (state_after [Create 0; Wait 1 1]) /\
  task_exit 3 (state_after [Create 0; Wait 1 1])
  = Ok tt (state_after [Create 0; Wait 1 1; Exit 3]) /\
  current_task (state_after [Create 0; Wait 1 1; Exit 3])
  <> current_task (state_after [Create 0; Wait 1 1]).
Proof.
  assert (Hr : reachable clk0 keys0 (state_after [Create 0; Wait 1 1])).
  { apply reachable_state_after. vm_compute. reflexivity. }
  assert (He : task_exit 3 (state_after [Create 0; Wait 1 1])
               = Ok tt (state_after [Create 0; Wait 1 1; Exit 3]))
    by (vm_compute; reflexivity).
  split; [exact Hr|]. split; [exact He|].
  destruct (task_exit_is_final clk0 keys0 _ _ 3 Hr He) as [H _]. exact H.
Defined.



(** ** Waiting for a live task *)

(** The prologue of a call writes no record but the caller's. *)
Lemma before_scan_other (o : op) (s pre : sched) (i : Z) :
  before_scan o s = Some pre -> i <> current_task s ->
  task_at i pre = task_at i s.
Proof.
  intros H Hne.
  destruct o as [fn|fuel h|fuel ms|fuel|fuel|fuel]; simpl in H; cbv zeta in H.
  - discriminate.
  - destruct (task_at (current_task s) s) as [t|] eqn:Ht; [|discriminate].
    injection H as <-. pose proof (task_at_Some _ _ _ Ht) as [Hr _].
    apply task_at_put_ne; lia.
  - destruct (task_at (current_task s) s) as [t|] eqn:Ht; [|discriminate].
    injection H as <-. pose proof (task_at_Some _ _ _ Ht) as [Hr _].
    apply (task_at_put_ne _ _ (tick s)); lia.
  - destruct (keys s (getch_calls s) =? ERR); [|discriminate].
    injection H as <-. reflexivity.
  - destruct (task_at (current_task s) s) as [t|] eqn:Ht; [|discriminate].
    injection H as <-. pose proof (task_at_Some _ _ _ Ht) as [Hr _].
    apply (task_at_put_ne _ _ (with_num_alive (num_alive s - 1) s)); lia.
  - injection H as <-. reflexivity.
Qed.

Section Waiting.

(** The task of slot [c] has left the record [t] behind, and [t] waits for a
    slot. *)
Variable c : Z.
Variable t : task_info.
Hypothesis t_waits : waiting_for t <> -1.

(** A scan picks [c] only when the slot it waits for is dead. *)
Lemma scan_back_wait (fuel : nat) (i : Z) (s s' : sched) :
  task_at c s = Some t -> scan fuel i s = Ok tt s' ->
  current_task s' = c ->
  exists other, task_at (waiting_for t) s' = Some other /\ is_alive other = 0.
Proof.
  intros Hc H Hback.
  apply scan_Ok in H as (j & tj & k & _ & Hj & Ha & Hw & _ & -> & _).
  simpl in Hback. subst j. rewrite Hc in Hj. injection Hj as <-.
  destruct Hw as [Hw|(other & Ho & Hd)]; [contradiction|].
  exists other. split; [|exact Hd].
  pose proof (task_at_Some _ _ _ Hc) as [Hr _].
  rewrite task_at_selected_ne; [exact Ho|lia|].
  intros He. rewrite <- He, Hc in Ho. injection Ho as <-. contradiction.
Qed.

Lemma step_back_wait (o : op) (s s' : sched) :
  current_task s <> c -> task_at c s = Some t ->
  step o s = Ok tt s' -> current_task s' = c ->
  exists other, task_at (waiting_for t) s' = Some other /\ is_alive other = 0.
Proof.
  intros Hcur Ht H Hback.
  destruct (before_scan o s) as [pre|] eqn:Hb.
  - rewrite (step_before_scan o s pre Hb) in H.
    apply (scan_back_wait (fuel_of o) (current_task s + 1) pre s'); auto.
    rewrite (before_scan_other o s pre c Hb) by auto. exact Ht.
  - destruct (step_without_scan o s s' Hb H) as (Hsame & _). congruence.
Qed.

Lemma run_away_wait (ops : list op) :
  forall s s',
    current_task s <> c -> 0 <= c < num_tasks s -> task_at c s = Some t ->
    run_away c ops s = Ok tt s' -> current_task s' = c ->
    exists other, task_at (waiting_for t) s' = Some other /\ is_alive other = 0.
Proof.
  induction ops as [|o ops IH]; intros s s' Hcur Hc Ht H Hback.
  - injection H as <-. contradiction.
  - apply run_away_cons in H as (s1 & H1 & H2); [|exact Hcur].
    pose proof (step_frame _ _ _ H1) as (_ & _ & Hn & _).
    destruct (Z.eq_dec (current_task s1) c) as [He|Hne].
    + rewrite run_away_back in H2 by exact He. injection H2 as <-.
      eapply step_back_wait; eauto.
    + destruct (step_away_record c t o s s1 Hcur Hc Ht H1) as [[_ Ht1]|(Hb & _)];
        [|contradiction].
      apply (IH s1 s'); auto. lia.
Qed.

End Waiting.

(** The content of the two theorems on waiting for a live task. *)
Lemma wait_on_live
    (s s1 : sched) (fuel : nat) (h : Z) (target : task_info) :
  sched_inv s ->
  task_at h s = Some target -> is_alive target <> 0 ->
  task_wait fuel h s = Ok tt s1 ->
  let c := current_task s in
  current_task s1 <> c /\
  forall ops s2,
    run_away c ops s1 = Ok tt s2 -> current_task s2 = c ->
    exists other, task_at h s2 = Some other /\ is_alive other = 0.
Proof.
  intros Hinv Hh Halive H c.
  destruct (inv_runnable _ Hinv) as (t & Ht & Ha & _).
  destruct (inv_index _ Hinv) as (Hc0 & Hcn & _).
  pose proof (task_at_Some _ _ _ Hh) as [Hhr _].
  rewrite task_wait_unfold, Ht in H. fold c in H.
  set (pre := put_task c (set_waiting_for h t) s) in *.
  assert (Hpre : task_at c pre = Some (set_waiting_for h t)).
  { apply (task_at_put_eq c s t). exact Ht. }
  assert (Hw : waiting_for (set_waiting_for h t) <> -1) by (simpl; lia).
  pose proof (scan_frame _ _ _ _ H) as (_ & _ & Hn & _).
  assert (Hcur1 : current_task s1 <> c).
  { intros Hback.
    destruct (scan_back_wait c _ Hw fuel _ pre s1 Hpre H Hback)
      as (other & Ho & Hd).
    simpl in Ho.
    apply scan_Ok in H as (j & tj & k & _ & Hj & _ & _ & _ & -> & _).
    simpl in Hback. subst j.
    destruct (Z.eq_dec c h) as [He|Hne].
    - rewrite <- He in Ho.
      rewrite (task_at_selected_eq c (with_time_calls (S k) pre) tj Hj) in Ho.
      injection Ho as <-.
      rewrite Hpre in Hj. injection Hj as <-. simpl in Hd. contradiction.
    - rewrite task_at_selected_ne in Ho by (unfold c; lia).
      change (task_at h pre = Some other) in Ho.
      unfold pre in Ho. rewrite task_at_put_ne in Ho by (unfold c; lia).
      rewrite Hh in Ho. injection Ho as <-. contradiction. }
  split; [exact Hcur1|].
  intros ops s2 H2 Hback.
  destruct (scan_record c _ _ _ _ _ Hpre H) as [[_ Ht1]|(Hb & _)];
    [|contradiction].
  apply (run_away_wait c _ Hw ops s1 s2); auto.
  rewrite Hn. simpl. fold c. lia.
Qed.



(** A run that ends with [c] current has a first state in which [c] is
    current. *)
Lemma run_first_back (c : Z) (ops : list op) :
  forall s s2,
    run ops s = Ok tt s2 -> current_task s2 = c ->
    exists ops1 ops2 s',
      run_away c ops1 s = Ok tt s' /\ current_task s' = c /\
      run ops2 s = Ok tt s'.
Proof.
  induction ops as [|o ops IH]; intros s s2 H Hback.
  - injection H as <-. exists [], [], s. repeat split; auto.
  - destruct (Z.eq_dec (current_task s) c) as [He|Hne].
    + exists [], [], s. repeat split; auto.
    + apply run_cons in H as (s1 & H1 & H2).
      destruct (IH s1 s2 H2 Hback) as (ops1 & ops2 & s' & Ha & Hc & Hrun).
      exists (o :: ops1), (o :: ops2), s'. split; [|split; [exact Hc|]].
      * simpl. unfold bind at 1, gets.
        destruct (Z.eqb_spec (current_task s) c); [contradiction|].
        unfold bind. rewrite H1. exact Ha.
      * simpl. unfold bind. rewrite H1. exact Hrun.
Qed.

(** X10. A task that waits on its own handle never runs again: once
    [task_wait (current_task)] has returned in another task, no later state
    has the caller as the current task. *)
Theorem task_wait_on_self_never_resumes
    (clk inp : nat -> Z) (s s1 : sched) (fuel : nat) :
  reachable clk inp s ->
  task_wait fuel (current_task s) s = Ok tt s1 ->
  forall ops s2, run ops s1 = Ok tt s2 -> current_task s2 <> current_task s.
Proof.
  intros Hr H ops s2 Hrun Hback.
  pose proof (reachable_inv _ _ _ Hr) as Hinv.
  destruct (inv_runnable _ Hinv) as (t & Ht & Ha & _).
  assert (Hr1 : reachable clk inp s1).
  { apply (reachable_step clk inp (Wait fuel (current_task s)) s s1 Hr). exact H. }
  destruct (wait_on_live s s1 fuel (current_task s) t Hinv Ht Ha H) as [_ Hwait].
  destruct (run_first_back _ ops s1 s2 Hrun Hback) as (ops1 & ops2 & s' & Haway & Hc & Hrun').
  destruct (Hwait ops1 s' Haway Hc) as (other & Ho & Hd).
  assert (Hinv' : sched_inv s').
  { apply (reachable_inv clk inp). eapply reachable_run; eauto. }
  destruct (inv_runnable _ Hinv') as (t' & Ht' & Ha' & _).
  rewrite Hc, Ho in Ht'. injection Ht' as <-. contradiction.
Qed.

Lemma task_wait_on_self_never_resumes_witness :
  reachable clk0 keys0 (state_after [Create 0]) /\
  task_wait 1 (current_task (state_after [Create 0])) (state_after [Create 0])
  = Ok tt (state_after [Create 0; Wait 1 0]) /\
  current_task (state_after [Create 0; Wait 1 0; Yield 3; Yield 3])
  <> current_task (state_after [Create 0]).
Proof.
  assert (Hr : reachable clk0 keys0 (state_after [Create 0])).
  { apply reachable_state_after. vm_compute. reflexivity. }
  assert (Hw : task_wait 1 (current_task (state_after [Create 0]))
                 (state_after [Create 0])
               = Ok tt (state_after [Create 0; Wait 1 0]))
    by (vm_compute; reflexivity).
  split; [exact Hr|]. split; [exact Hw|].
  apply (task_wait_on_self_never_resumes clk0 keys0 _ _ 1 Hr Hw
           [Yield 3; Yield 3]).
  vm_compute. reflexivity.
Defined.

(** ** Calling [scheduler_init] again *)

(** X11. [scheduler_init] is not a reset.  Called in a reachable state in
    which the task of slot 1 is alive, waits for nobody and is past its
    wake-up time, it returns with [num_tasks = 1] but leaves that record as it
    is; the host's next [schedule_next] then switches to slot 1, and
    [current_task = num_tasks]: the bounds of the indices no longer hold. *)
Theorem scheduler_init_twice
    (clk inp : nat -> Z) (s : sched) (t : task_info) :
  reachable clk inp s ->
  task_at 1 s = Some t ->
  is_alive t <> 0 -> waiting_for t = -1 ->
  wake_time t <= now_at s (time_calls s) ->
  exists s',
    (scheduler_init;; schedule_next 1) s = Ok tt s' /\
    current_task s' = 1 /\ num_tasks s' = 1 /\
    ~ index_inv s'.
Proof.
  intros Hr Ht Ha Hw Hk.
  pose proof (reachable_inv _ _ _ Hr) as Hinv.
  destruct (task_at_in_table 0 s (inv_table _ Hinv)) as [t0 Ht0];
    [unfold MAX_TASKS; lia|].
  unfold bind at 1. rewrite scheduler_init_unfold. cbv zeta. rewrite Ht0.
  set (s0 := with_calls _ _).
  assert (H1 : task_at 1 s0 = Some t).
  { change (task_at 1 (put_task 0 (mk_task 1 (wake_time t0) (-1)) s) = Some t).
    rewrite task_at_put_ne by lia. exact Ht. }
  exists (selected 1 t (tick s0)). split; [|split; [reflexivity|split; [reflexivity|]]].
  - unfold schedule_next, bind, gets.
    change (current_task s0 + 1) with 1.
    rewrite scan_unfold, H1.
    rewrite is_ready_runnable by auto.
    apply switch_to_Some. exact H1.
  - intros (_ & Hlt & _). simpl in Hlt. lia.
Qed.

Lemma scheduler_init_twice_witness :
  reachable clk0 keys0 (state_after [Create 0]) /\
  task_at 1 (state_after [Create 0]) = Some (mk_task 1 0 (-1)) /\
  exists s',
    (scheduler_init;; schedule_next 1) (state_after [Create 0]) = Ok tt s' /\
    current_task s' = 1 /\ num_tasks s' = 1.
Proof.
  assert (Hr : reachable clk0 keys0 (state_after [Create 0])).
  { apply reachable_state_after. vm_compute. reflexivity. }
  split; [exact Hr|]. split; [reflexivity|].
  destruct (scheduler_init_twice clk0 keys0 (state_after [Create 0])
              (mk_task 1 0 (-1)) Hr)
    as (s' & H1 & H2 & H3 & _).
  - reflexivity.
  - simpl. lia.
  - reflexivity.
  - apply now_at_range.
  - exists s'. split; [exact H1|]. split; [exact H2|exact H3].
Defined.

(** ** A sleeper wakes up *)

(** If the clock reaches the wake-up time of a live task that waits for
    nobody within [d] more readings, a scan that stays inside the table
    returns, given enough fuel: at the latest it picks that task. *)
Lemma scan_eventually (c : Z) (t : task_info) (d : nat) :
  forall (p : nat) i s,
    length (tasks s) = Z.to_nat MAX_TASKS -> valid_handles s ->
    num_tasks s < MAX_TASKS -> monotone_clock s ->
    0 <= c < num_tasks s -> task_at c s = Some t ->
    is_alive t <> 0 -> waiting_for t = -1 ->
    wake_time t <= now_at s (time_calls s + d) ->
    0 <= i < MAX_TASKS -> probes_before (num_tasks s) c i <= Z.of_nat p ->
    exists fuel s', scan fuel i s = Ok tt s'.
Proof.
  induction d as [|d IHd].
  - intros p i s Hlen Hv Hn Hmono Hc Ht Ha Hw Hk Hi Hp.
    exists (S p).
    destruct (scan (S p) i s) as [[] s'|j s'|] eqn:Hs.
    + eauto.
    + exfalso. revert Hs. apply scan_no_fault; auto; lia.
    + exfalso. revert Hs. apply (scan_reaches c t); auto; try lia.
      * left. exact Hw.
      * intros k Hle. etransitivity; [exact Hk|]. apply Hmono. lia.
  - assert (Hself : forall s,
              length (tasks s) = Z.to_nat MAX_TASKS -> valid_handles s ->
              num_tasks s < MAX_TASKS -> monotone_clock s ->
              0 <= c < num_tasks s -> task_at c s = Some t ->
              is_alive t <> 0 -> waiting_for t = -1 ->
              wake_time t <= now_at s (time_calls s + S d) ->
              exists fuel s', scan fuel c s = Ok tt s').
    { intros s Hlen Hv Hn Hmono Hc Ht Ha Hw Hk.
      apply Z.eqb_neq in Ha as Ha'.
      assert (Hr : is_ready t s
                   = Ok (wake_time t <=? now_at s (time_calls s)) (tick s)).
      { rewrite is_ready_unfold, Ha', Hw. reflexivity. }
      destruct (wake_time t <=? now_at s (time_calls s)) eqn:Hb.
      - exists 1%nat. eexists. rewrite scan_unfold, Ht, Hr.
        apply switch_to_Some. exact Ht.
      - set (i' := if c + 1 >=? num_tasks s then 0 else c + 1).
        assert (Hi' : 0 <= i' < MAX_TASKS).
        { unfold i'. destruct (Z.geb_spec (c + 1) (num_tasks s)); lia. }
        assert (Hk' : wake_time t <= now_at (tick s) (time_calls (tick s) + d)).
        { simpl.
          replace (S (time_calls s + d)) with (time_calls s + S d)%nat by lia.
          exact Hk. }
        assert (Hp' : probes_before (num_tasks (tick s)) c i'
                      <= Z.of_nat (Z.to_nat (probes_before (num_tasks s) c i'))).
        { pose proof (probes_before_nonneg (num_tasks s) c i'). simpl. lia. }
        destruct (IHd _ i' (tick s) Hlen Hv Hn Hmono Hc Ht Ha Hw Hk' Hi' Hp')
          as (fuel & s' & Hs).
        exists (S fuel), s'. rewrite scan_unfold, Ht, Hr. exact Hs. }
    induction p as [|p IHp]; intros i s Hlen Hv Hn Hmono Hc Ht Ha Hw Hk Hi Hp.
    + assert (i = c) as ->.
      { unfold probes_before in Hp. destruct (Z.leb_spec i c); lia. }
      apply Hself; assumption.
    + destruct (Z.eq_dec i c) as [->|Hne]; [apply Hself; assumption|].
      destruct (task_at_in_table i s Hlen Hi) as [ti Hti].
      set (i' := if i + 1 >=? num_tasks s then 0 else i + 1).
      assert (Hi' : 0 <= i' < MAX_TASKS).
      { unfold i'. destruct (Z.geb_spec (i + 1) (num_tasks s)); lia. }
      assert (Hp' : probes_before (num_tasks s) c i' <= Z.of_nat p).
      { unfold probes_before, i' in *.
        destruct (Z.geb_spec (i + 1) (num_tasks s));
          destruct (Z.leb_spec i c);
          repeat match goal with
                 | |- context [?a <=? ?b] => destruct (Z.leb_spec a b)
                 end; lia. }
      assert (Hk' : wake_time t <= now_at (tick s) (time_calls (tick s) + S d)).
      { simpl. etransitivity; [exact Hk|]. apply Hmono. lia. }
      destruct (is_ready_no_fault ti s Hlen (Hv _ _ Hti)) as [[|] [Hr|Hr]].
      * exists 1%nat. eexists. rewrite scan_unfold, Hti, Hr.
        apply switch_to_Some. exact Hti.
      * exists 1%nat. eexists. rewrite scan_unfold, Hti, Hr.
        apply switch_to_Some. exact Hti.
      * destruct (IHp i' s Hlen Hv Hn Hmono Hc Ht Ha Hw Hk Hi' Hp')
          as (fuel & s' & Hs).
        exists (S fuel), s'. rewrite scan_unfold, Hti, Hr. exact Hs.
      * destruct (IHp i' (tick s) Hlen Hv Hn Hmono Hc Ht Ha Hw Hk' Hi' Hp')
          as (fuel & s' & Hs).
        exists (S fuel), s'. rewrite scan_unfold, Hti, Hr. exact Hs.
Qed.

(** X12. [task_sleep] does not spin forever once the clock gets there.
    In a reachable state with handles inside the table, a table that is not
    full and a clock that does not run backwards, if some later clock reading
    reaches [start + ms] (taken to fit in a [size_t]) then [task_sleep ms]
    returns, given enough fuel, in whichever task its scan picks; and when
    the caller is the only live task, it returns in the caller itself. *)
Theorem task_sleep_returns
    (clk inp : nat -> Z) (s : sched) (ms : Z) (d : nat) :
  reachable clk inp s -> valid_handles s -> monotone_clock s ->
  num_tasks s < MAX_TASKS ->
  0 <= ms ->
  now_at s (time_calls s) + ms < 2 ^ SIZE_BITS ->
  now_at s (time_calls s) + ms <= now_at s (S (time_calls s) + d) ->
  exists fuel s',
    task_sleep fuel ms s = Ok tt s' /\
    ((forall i t, i <> current_task s -> task_at i s = Some t -> is_alive t = 0) ->
     current_task s' = current_task s).
Proof.
  intros Hr Hv Hmono Hn Hms Hfit Hd.
  pose proof (reachable_inv _ _ _ Hr) as Hinv.
  destruct (inv_runnable _ Hinv) as (t & Ht & Ha & Hw & _).
  destruct (inv_index _ Hinv) as (Hc0 & Hcn & _).
  set (wake := now_at s (time_calls s) + ms) in *.
  assert (Hwrap : to_size_t wake = wake).
  { unfold to_size_t. apply Z.mod_small.
    pose proof (now_at_range s (time_calls s)). unfold wake. lia. }
  set (pre := put_task (current_task s) (set_wake_time wake t) (tick s)).
  assert (Hlen : length (tasks pre) = Z.to_nat MAX_TASKS).
  { simpl. rewrite length_insert. apply (inv_table _ Hinv). }
  assert (Hvpre : valid_handles pre).
  { apply (valid_handles_put _ _ (tick s)); [exact Hv|]. left. exact Hw. }
  assert (Hrec : task_at (current_task s) pre = Some (set_wake_time wake t)).
  { apply (task_at_put_eq _ (tick s) t). exact Ht. }
  assert (Hp : probes_before (num_tasks pre) (current_task s) (current_task s + 1)
               <= Z.of_nat (Z.to_nat (probes_before (num_tasks s) (current_task s)
                                        (current_task s + 1)))).
  { pose proof (probes_before_nonneg (num_tasks s) (current_task s)
                  (current_task s + 1)).
    simpl. lia. }
  destruct (scan_eventually (current_task s) (set_wake_time wake t) d _
              (current_task s + 1) pre Hlen Hvpre Hn Hmono
              (conj Hc0 Hcn) Hrec Ha Hw Hd ltac:(lia) Hp)
    as (fuel & s' & Hs).
  exists fuel, s'. split.
  - rewrite task_sleep_unfold, Ht. fold wake. rewrite Hwrap. exact Hs.
  - intros Hothers.
    apply scan_Ok in Hs as (j & tj & k & _ & Hj & Haj & _ & _ & -> & _).
    simpl. destruct (Z.eq_dec j (current_task s)) as [He|Hne]; [exact He|].
    exfalso. apply Haj.
    unfold pre in Hj. rewrite task_at_put_ne in Hj by (simpl; lia).
    apply (Hothers j tj Hne). exact Hj.
Qed.

Lemma clk_capped_now (s : sched) (k : nat) :
  clock s = clk_capped -> now_at s k = Z.min (1000 + 10 * Z.of_nat k) 5000.
Proof.
  intros H. unfold now_at, to_size_t. rewrite H. unfold clk_capped.
  apply Z.mod_small.
  change (2 ^ SIZE_BITS) with 18446744073709551616. lia.
Qed.

Lemma clk_capped_monotone (s : sched) :
  clock s = clk_capped -> monotone_clock s.
Proof.
  intros H j k Hle. rewrite !clk_capped_now by exact H. lia.
Qed.

Lemma task_sleep_returns_witness :
  reachable clk_capped keys0 (started clk_capped keys0) /\
  valid_handles (started clk_capped keys0) /\
  monotone_clock (started clk_capped keys0) /\
  num_tasks (started clk_capped keys0) < MAX_TASKS /\
  0 <= 25 /\
  now_at (started clk_capped keys0) 0 + 25 < 2 ^ SIZE_BITS /\
  now_at (started clk_capped keys0) 0 + 25 <= now_at (started clk_capped keys0) 3 /\
  exists fuel s', task_sleep fuel 25 (started clk_capped keys0) = Ok tt s'.
Proof.
  split; [apply reachable_started|].
  split; [apply valid_handles_started|].
  split; [apply clk_capped_monotone; reflexivity|].
  split; [reflexivity|]. split; [lia|].
  split; [reflexivity|].
  split; [vm_compute; discriminate|].
  destruct (task_sleep_returns clk_capped keys0 (started clk_capped keys0) 25 2)
    as (fuel & s' & H & _).
  - apply reachable_started.
  - apply valid_handles_started.
  - apply clk_capped_monotone. reflexivity.
  - reflexivity.
  - lia.
  - reflexivity.
  - vm_compute. discriminate.
  - exists fuel, s'. exact H.
Defined.

(** ** Exit hands over to a waiter *)

(** X13. When the running task exits while a live task waits for it and is
    past its wake-up time, [task_exit] returns in some other task within
    [num_tasks + 1] probes (handles inside the table, table not full, clock
    not running backwards): the waiter is ready at the first evaluation after
    the exit. *)
Theorem task_exit_wakes_waiter
    (clk inp : nat -> Z) (s : sched) (w : Z) (tw : task_info) :
  reachable clk inp s -> valid_handles s -> monotone_clock s ->
  num_tasks s < MAX_TASKS ->
  task_at w s = Some tw ->
  is_alive tw <> 0 -> waiting_for tw = current_task s ->
  wake_time tw <= now_at s (time_calls s) ->
  exists s',
    task_exit (S (Z.to_nat (num_tasks s))) s = Ok tt s' /\
    current_task s' <> current_task s.
Proof.
  intros Hr Hv Hmono Hn Hw Ha Hwait Hk.
  pose proof (reachable_inv _ _ _ Hr) as Hinv.
  destruct (inv_runnable _ Hinv) as (t & Ht & Hta & Htw & _).
  destruct (inv_index _ Hinv) as (Hc0 & Hcn & _).
  pose proof (alive_claimed w tw s (sched_inv_table _ Hinv) Hw Ha) as Hwr.
  assert (Hne : w <> current_task s).
  { intros ->. rewrite Ht in Hw. injection Hw as <-. lia. }
  rewrite task_exit_unfold, Ht.
  set (pre := with_calls _ _).
  assert (Hc : task_at (current_task s) pre = Some (set_is_alive 0 t)).
  { apply (task_at_put_eq _ (with_num_alive (num_alive s - 1) s) t). exact Ht. }
  assert (Hwpre : task_at w pre = Some tw).
  { change (task_at w (put_task (current_task s) (set_is_alive 0 t) s) = Some tw).
    rewrite task_at_put_ne by lia. exact Hw. }
  assert (Hlen : length (tasks pre) = Z.to_nat MAX_TASKS).
  { simpl. rewrite length_insert. apply (inv_table _ Hinv). }
  assert (Hvpre : valid_handles pre).
  { apply (valid_handles_put _ _ (with_num_alive (num_alive s - 1) s)); auto.
    exact (Hv _ _ Ht). }
  destruct (scan (S (Z.to_nat (num_tasks s))) (current_task s + 1) pre)
    as [[] s'|j s'|] eqn:Hs.
  - exists s'. split; [reflexivity|].
    destruct (scan_record (current_task s) _ _ _ _ _ Hc Hs)
      as [[Hcur _]|(_ & _ & Hal & _)]; [exact Hcur|].
    simpl in Hal. lia.
  - exfalso. revert Hs. apply scan_no_fault; auto; simpl; lia.
  - exfalso. revert Hs. apply (scan_reaches w tw); auto; try (simpl; lia).
    + right. exists (set_is_alive 0 t). rewrite Hwait. split; [exact Hc|reflexivity].
    + intros k Hle. etransitivity; [exact Hk|]. apply (Hmono _ _ Hle).
    + unfold probes_before. simpl.
      destruct (Z.leb_spec (current_task s + 1) w); lia.
Qed.

Lemma task_exit_wakes_waiter_witness :
  reachable clk0 keys0 (state_after [Create 0; Wait 1 1]) /\
  task_at 0 (state_after [Create 0; Wait 1 1]) = Some (mk_task 1 0 1) /\
  waiting_for (mk_task 1 0 1) = current_task (state_after [Create 0; Wait 1 1]) /\
  exists s',
    task_exit 3 (state_after [Create 0; Wait 1 1]) = Ok tt s' /\
    current_task s' <> current_task (state_after [Create 0; Wait 1 1]).
Proof.
  assert (Hr : reachable clk0 keys0 (state_after [Create 0; Wait 1 1])).
  { apply reachable_state_after. vm_compute. reflexivity. }
  split; [exact Hr|]. split; [reflexivity|]. split; [reflexivity|].
  apply (task_exit_wakes_waiter clk0 keys0 (state_after [Create 0; Wait 1 1])
           0 (mk_task 1 0 1) Hr).
  - intros i t Hi.
    assert (Hcases : t = mk_task 1 0 1 \/ t = mk_task 1 0 (-1) \/ t = zero_task).
    { pose proof (task_at_Some _ _ _ Hi) as [Hrange Hl].
      destruct (Z.eq_dec i 0) as [->|H0];
        [left; vm_compute in Hi; congruence|].
      destruct (Z.eq_dec i 1) as [->|H1];
        [right; left; vm_compute in Hi; congruence|].
      right. right.
      pose proof (inv_unborn _ (reachable_inv _ _ _ Hr) i) as Hu.
      rewrite Hu in Hi by (change (num_tasks (state_after [Create 0; Wait 1 1])) with 2; lia).
      congruence. }
    destruct Hcases as [->|[->| ->]]; unfold valid_wait, MAX_TASKS; simpl; lia.
  - apply clk0_monotone. reflexivity.
  - reflexivity.
  - reflexivity.
  - simpl. lia.
  - reflexivity.
  - apply now_at_range.
Defined.

(** ** Waiting for a dead task *)

(** What happens while a task is switched out is a run. *)
Lemma run_away_is_run (c : Z) (ops : list op) :
  forall s s', run_away c ops s = Ok tt s' -> exists ops', run ops' s = Ok tt s'.
Proof.
  induction ops as [|o ops IH]; intros s s' H.
  - exists []. exact H.
  - destruct (Z.eq_dec (current_task s) c) as [He|Hne].
    + rewrite run_away_back in H by exact He. exists []. exact H.
    + apply run_away_cons in H as (s1 & H1 & H2); [|exact Hne].
      destruct (IH s1 s' H2) as (ops' & Hrun).
      exists (o :: ops'). simpl. unfold bind. rewrite H1. exact Hrun.
Qed.

(** C7, amended. In a reachable state, with a clock that does not run
    backwards, let [h] be [-1] or the index of a slot of the table that is
    not alive.  Then [task_wait h] stores [h] and runs [schedule_next].  In
    the scan of that call the caller's record satisfies [is_ready] whenever
    it is evaluated, the scan never runs out of fuel within [num_tasks + 1]
    probes, and it returns when the handles are inside the table and the
    caller does not sit in the last slot.  After the call, while the caller
    is switched out, its record is the one the call left, and it satisfies
    [is_ready] in every state in which slot [h] is still not alive; that is
    every later state when [h] is [-1] or a slot claimed before the call
    (the slot of an exited task). *)
Theorem task_wait_on_dead_resolves
    (clk inp : nat -> Z) (s : sched) (h : Z) :
  reachable clk inp s ->
  monotone_clock s ->
  (h = -1 \/ exists other, task_at h s = Some other /\ is_alive other = 0) ->
  let c := current_task s in
  exists t,
    task_at c s = Some t /\
    let waiting := put_task c (set_waiting_for h t) s in
    let record := set_waiting_for h t in
    (forall fuel, task_wait fuel h s = schedule_next fuel waiting) /\
    (forall n, (time_calls s <= n)%nat ->
               is_ready record (with_time_calls n waiting)
               = Ok true (with_time_calls (S n) waiting)) /\
    task_wait (S (Z.to_nat (num_tasks s))) h s <> OutOfFuel /\
    (valid_handles s -> current_task s + 1 < MAX_TASKS ->
     exists s1, task_wait (S (Z.to_nat (num_tasks s))) h s = Ok tt s1) /\
    (forall fuel s1 ops s2,
        task_wait fuel h s = Ok tt s1 ->
        run_away c ops s1 = Ok tt s2 -> current_task s2 <> c ->
        task_at c s2 = Some record /\
        ((h = -1 \/ exists other, task_at h s2 = Some other /\ is_alive other = 0) ->
         is_ready record s2 = Ok true (tick s2)) /\
        (h < num_tasks s -> is_ready record s2 = Ok true (tick s2))).
Proof.
  intros Hr Hmono Hh c.
  pose proof (reachable_inv _ _ _ Hr) as Hinv.
  pose proof (inv_runnable _ Hinv) as Hrun.
  destruct Hrun as (t & Ht & Ha & Hw & _).
  destruct (inv_index _ Hinv) as (Hc0 & Hcn & Hnmax).
  exists t. split; [exact Ht|]. intros waiting record.
  assert (Heq : forall fuel, task_wait fuel h s = schedule_next fuel waiting).
  { intros fuel. rewrite task_wait_unfold, Ht. reflexivity. }
  assert (Hrec : task_at c waiting = Some record).
  { apply (task_at_put_eq c s t). exact Ht. }
  assert (Hhc : forall other, task_at h s = Some other -> is_alive other = 0 ->
                              c <> h).
  { intros other Ho Hd Hch. rewrite <- Hch in Ho. unfold c in Ho.
    rewrite Ht in Ho. injection Ho as ->. contradiction. }
  assert (Hover : wait_over record waiting).
  { destruct Hh as [->|(other & Ho & Hd)]; [left; reflexivity|].
    right. exists other. split; [|exact Hd]. simpl.
    unfold waiting. rewrite task_at_put_ne; [exact Ho|exact Hc0|eauto]. }
  assert (Hwake : forall k, (time_calls s <= k)%nat ->
                            wake_time record <= now_at s k).
  { intros k Hk. simpl. apply runnable_wake_time; auto.
    apply (inv_runnable _ Hinv). }
  assert (Hfuel : scan (S (Z.to_nat (num_tasks s))) (current_task s + 1) waiting
                  <> OutOfFuel).
  { apply (scan_reaches c record); auto.
    - change (0 <= current_task s + 1). lia.
    - change (probes_before (num_tasks s) (current_task s) (current_task s + 1)
              < Z.of_nat (S (Z.to_nat (num_tasks s)))).
      unfold probes_before.
      destruct (Z.leb_spec (current_task s + 1) (current_task s)); lia. }
  split; [exact Heq|]. split; [|split; [|split]].
  - intros n Hn. apply is_ready_true. split; [|reflexivity].
    split; [exact Ha|]. split; [exact Hover|]. apply (Hwake n Hn).
  - rewrite Heq. exact Hfuel.
  - intros Hv Hlast. rewrite Heq. unfold schedule_next, bind, gets.
    change (current_task waiting) with (current_task s).
    destruct (scan (S (Z.to_nat (num_tasks s))) (current_task s + 1) waiting)
      as [[] s1|j s1|] eqn:Hs.
    + eauto.
    + exfalso. revert Hs. apply scan_no_fault.
      * simpl. rewrite length_insert. apply (inv_table _ Hinv).
      * apply valid_handles_put; [exact Hv|].
        destruct Hh as [->|(other & Ho & _)]; [left; reflexivity|].
        right. simpl. apply task_at_Some in Ho as [Ho _]. exact Ho.
      * exact Hnmax.
      * lia.
    + contradiction.
  - intros fuel s1 ops s2 H1 H2 Haway.
    assert (Hr1 : reachable clk inp s1).
    { apply (reachable_step clk inp (Wait fuel h) s s1 Hr). exact H1. }
    rewrite Heq in H1. unfold schedule_next, bind, gets in H1.
    pose proof (scan_frame _ _ _ _ H1) as (Hclk1 & _ & Hn1 & Htc1 & _).
    assert (Hcur1 : current_task s1 <> c).
    { intros Hb. rewrite run_away_back in H2 by exact Hb.
      injection H2 as <-. contradiction. }
    assert (Ht1 : task_at c s1 = Some record).
    { destruct (scan_record c record _ _ _ _ Hrec H1) as [[_ H]|(Hb & _)];
        [exact H|contradiction]. }
    assert (Hrange : 0 <= c < num_tasks s1).
    { rewrite Hn1. change (0 <= current_task s < num_tasks s). lia. }
    destruct (run_away_record c record ops s1 s2 Hcur1 Hrange Ht1 H2)
      as (Hclk2 & Htc2 & Hres).
    assert (Ht2 : task_at c s2 = Some record).
    { destruct Hres as [[_ H]|(Hb & _)]; [exact H|contradiction]. }
    assert (Hready : (h = -1 \/ exists other, task_at h s2 = Some other /\
                                              is_alive other = 0) ->
                     is_ready record s2 = Ok true (tick s2)).
    { intros Hdead. apply is_ready_true. split; [|reflexivity].
      split; [exact Ha|]. split.
      - destruct Hdead as [->|Hdead]; [left; reflexivity|right; exact Hdead].
      - replace (now_at s2 (time_calls s2)) with (now_at s (time_calls s2)).
        + apply Hwake. simpl in Htc1. lia.
        + unfold now_at. rewrite Hclk2, Hclk1. reflexivity. }
    split; [exact Ht2|]. split; [exact Hready|].
    intros Hclaimed. apply Hready.
    destruct Hh as [->|(other & Ho & Hd)]; [left; reflexivity|right].
    exists other. split; [|exact Hd].
    pose proof (task_at_Some _ _ _ Ho) as [Hhr _].
    assert (Ho1 : task_at h s1 = Some other).
    { assert (Hw0 : task_at h waiting = Some other).
      { unfold waiting. rewrite task_at_put_ne; [exact Ho|exact Hc0|eauto]. }
      destruct (scan_record h other _ _ _ _ Hw0 H1) as [[_ H]|(_ & _ & Hal & _)];
        [exact H|contradiction]. }
    destruct (run_away_is_run c ops s1 s2 H2) as (ops' & Hrun).
    destruct (dead_run h other ops' s1 s2) as [H _]; auto.
    + eapply reachable_inv; eauto.
    + rewrite Hn1. change (0 <= h < num_tasks s). lia.
Qed.

Lemma task_wait_on_dead_resolves_witness :
  reachable clk0 keys0 (started clk0 keys0) /\
  monotone_clock (started clk0 keys0) /\
  (5 = -1 \/ exists other, task_at 5 (started clk0 keys0) = Some other /\
                           is_alive other = 0) /\
  exists s1, task_wait 2 5 (started clk0 keys0) = Ok tt s1.
Proof.
  assert (Hdead : 5 = -1 \/
                  exists other, task_at 5 (started clk0 keys0) = Some other /\
                                is_alive other = 0).
  { right. exists zero_task. split; reflexivity. }
  split; [apply reachable_started|].
  split; [apply clk0_monotone; reflexivity|].
  split; [exact Hdead|].
  destruct (task_wait_on_dead_resolves clk0 keys0 (started clk0 keys0) 5)
    as (t & _ & _ & _ & _ & H & _).
  - apply reachable_started.
  - apply clk0_monotone. reflexivity.
  - exact Hdead.
  - apply H; [apply valid_handles_started|reflexivity].
Defined.

(** ** A ready task is not passed over *)

(** One failed probe brings every other claimed slot one probe closer. *)
Lemma probes_before_step (n c i : Z) :
  0 <= c < n -> 0 <= i -> i <> c ->
  probes_before n c (if i + 1 >=? n then 0 else i + 1)
  = probes_before n c i - 1.
Proof.
  intros Hc Hi Hne. unfold probes_before.
  destruct (Z.geb_spec (i + 1) n); destruct (Z.leb_spec i c);
    repeat match goal with
           | |- context [?a <=? ?b] => destruct (Z.leb_spec a b)
           end; lia.
Qed.

Lemma scan_not_skipped (c : Z) (t : task_info) (fuel : nat) :
  forall i s s',
    table_inv s -> 0 <= c < num_tasks s -> task_at c s = Some t ->
    is_alive t <> 0 -> wait_over t s ->
    (forall k, (time_calls s <= k)%nat -> wake_time t <= now_at s k) ->
    scan fuel i s = Ok tt s' ->
    0 <= current_task s' < num_tasks s /\
    probes_before (num_tasks s) (current_task s') i
    <= probes_before (num_tasks s) c i.
Proof.
  induction fuel as [|fuel IH]; intros i s s' Htab Hc Ht Ha Hwo Hwake H;
    [discriminate|].
  pose proof H as Hpick.
  apply scan_Ok in Hpick as (j & tj & k & _ & Hj & Haj & _ & _ & Hs' & _).
  assert (Hjr : 0 <= current_task s' < num_tasks s).
  { rewrite Hs'. simpl. eapply alive_claimed; eauto. }
  split; [exact Hjr|].
  rewrite scan_unfold in H.
  destruct (task_at i s) as [ti|] eqn:Hti; [|discriminate].
  pose proof (task_at_Some _ _ _ Hti) as [Hir _].
  destruct (is_ready ti s) as [[|] s1| |] eqn:Hr; try discriminate.
  - apply is_ready_true in Hr as [_ ->].
    rewrite (switch_to_Some i ti) in H by exact Hti. injection H as <-.
    simpl. pose proof (probes_before_nonneg (num_tasks s) c i).
    unfold probes_before at 1. rewrite Z.leb_refl. lia.
  - apply is_ready_false in Hr as [Hnot Hs1].
    destruct (Z.eq_dec i c) as [->|Hne].
    { exfalso. apply Hnot. rewrite Ht in Hti. injection Hti as <-.
      split; [exact Ha|]. split; [exact Hwo|]. apply Hwake. lia. }
    assert (Hn1 : num_tasks s1 = num_tasks s)
      by (destruct Hs1 as [-> | ->]; reflexivity).
    rewrite Hn1 in H.
    assert (IH' : probes_before (num_tasks s) (current_task s')
                    (if i + 1 >=? num_tasks s then 0 else i + 1)
                  <= probes_before (num_tasks s) c
                       (if i + 1 >=? num_tasks s then 0 else i + 1)).
    { destruct Hs1 as [-> | ->].
      - apply (IH _ s s'); auto.
      - apply (IH _ (tick s) s'); auto.
        intros k' Hk'. apply Hwake. simpl in Hk'. lia. }
    rewrite (probes_before_step _ c i) in IH' by lia.
    destruct (Z.eq_dec (current_task s') i) as [He|Hne'].
    + rewrite He. unfold probes_before at 1. rewrite Z.leb_refl.
      pose proof (probes_before_nonneg (num_tasks s) c i). lia.
    + rewrite (probes_before_step _ (current_task s') i) in IH' by lia. lia.
Qed.

(** X16. A ready task is not passed over.  In a reachable state, with a
    clock that does not run backwards, let the task of slot [c] be ready.
    Then a [schedule_next] that returns has picked a claimed slot which the
    loop, starting at index [current_task + 1], reaches in no more probes than
    slot [c]: it has picked [c], or a slot that comes before [c] in the
    circular order of the scan. *)
Theorem ready_task_not_skipped
    (clk inp : nat -> Z) (s s' : sched) (fuel : nat) (c : Z) (t : task_info) :
  reachable clk inp s -> monotone_clock s ->
  task_at c s = Some t -> ready_now t s ->
  schedule_next fuel s = Ok tt s' ->
  0 <= current_task s' < num_tasks s /\
  probes_before (num_tasks s) (current_task s') (current_task s + 1)
  <= probes_before (num_tasks s) c (current_task s + 1).
Proof.
  intros Hr Hmono Ht (Ha & Hwo & Hk) H.
  pose proof (reachable_inv _ _ _ Hr) as Hinv.
  pose proof (sched_inv_table _ Hinv) as Htab.
  unfold schedule_next, bind, gets in H.
  apply (scan_not_skipped c t fuel _ s s'); auto.
  - eapply alive_claimed; eauto.
  - intros k Hle. etransitivity; [exact Hk|]. apply Hmono. exact Hle.
Qed.

Lemma ready_task_not_skipped_witness :
  reachable clk0 keys0 (state_after [Create 0; Create 1]) /\
  monotone_clock (state_after [Create 0; Create 1]) /\
  task_at 2 (state_after [Create 0; Create 1]) = Some (mk_task 1 0 (-1)) /\
  ready_now (mk_task 1 0 (-1)) (state_after [Create 0; Create 1]) /\
  schedule_next 1 (state_after [Create 0; Create 1])
  = Ok tt (state_after [Create 0; Create 1; Yield 1]) /\
  probes_before 3 (current_task (state_after [Create 0; Create 1; Yield 1])) 1
  <= probes_before 3 2 1.
Proof.
  assert (Hr : reachable clk0 keys0 (state_after [Create 0; Create 1])).
  { apply reachable_state_after. vm_compute. reflexivity. }
  assert (Hm : monotone_clock (state_after [Create 0; Create 1])).
  { apply clk0_monotone. reflexivity. }
  assert (Ht : task_at 2 (state_after [Create 0; Create 1])
               = Some (mk_task 1 0 (-1))) by reflexivity.
  assert (Hready : ready_now (mk_task 1 0 (-1)) (state_after [Create 0; Create 1])).
  { split; [simpl; lia|]. split; [left; reflexivity|]. apply now_at_range. }
  assert (Hs : schedule_next 1 (state_after [Create 0; Create 1])
               = Ok tt (state_after [Create 0; Create 1; Yield 1]))
    by (vm_compute; reflexivity).
  split; [exact Hr|]. split; [exact Hm|]. split; [exact Ht|].
  split; [exact Hready|]. split; [exact Hs|].
  destruct (ready_task_not_skipped clk0 keys0 _ _ 1 2 _ Hr Hm Ht Hready Hs)
    as [_ H].
  exact H.
Defined.
